(** * Real-time transaction-status client: model and properties

    A shallow embedding of the push-channel wrapper
    ([services/websocket.js]), the transaction view
    ([components/TransactionStatus.jsx]), the session binding
    ([context/AuthContext.jsx]) and the request layer's response
    interceptor ([services/api.js]).

    Conventions.
    - JavaScript values that cross module boundaries (user records, emit
      payloads) are [jsval]s; strings stay [string]s.
    - A function object is a [callback]: its reference identity, a number.
      [===] and [Array.prototype.indexOf] compare exactly that.
    - The socket.io client is an external object.  Its event-emitter
      registry is a field of [Socket]; every call that reaches the wire or
      the transport ([io], [emit], [disconnect], [connect]) is appended to
      the ghost log [wire] of the service. *)

From stdpp Require Import gmap strings list fin_maps pretty.
From Stdlib Require Import ZArith Lia.

Open Scope string_scope.
Open Scope list_scope.

(* ===================================================================== *)
(** ** JavaScript values                                                  *)
(* ===================================================================== *)

Module Js.

#[local] Set Warnings "-register-all".

Inductive jsval : Type :=
  | VUndef
  | VNull
  | VBool (b : bool)
  | VNum (n : Z)
  | VStr (s : string)
  | VObj (fields : list (string * jsval)).

(** [if (v)]: the values that count as true. *)
Definition truthy (v : jsval) : bool :=
  match v with
  | VUndef | VNull => false
  | VBool b => b
  | VNum n => negb (n =? 0)%Z
  | VStr s => negb (String.eqb s "")
  | VObj _ => true
  end.

Fixpoint assoc (k : string) (fs : list (string * jsval)) : jsval :=
  match fs with
  | [] => VUndef
  | (k', v) :: fs' => if String.eqb k' k then v else assoc k fs'
  end.

(** [v.k].  [None] is the TypeError raised on [null] and [undefined];
    a primitive has no own property of the names used here. *)
Definition prop (v : jsval) (k : string) : option jsval :=
  match v with
  | VUndef | VNull => None
  | VObj fs => Some (assoc k fs)
  | _ => Some VUndef
  end.

(** [Array.prototype.indexOf]: position of the first element strictly
    equal to [x], [-1] when there is none. *)
Fixpoint indexOf_from {A} `{EqDecision A} (i : Z) (l : list A) (x : A) : Z :=
  match l with
  | [] => (-1)%Z
  | y :: l' => if decide (y = x) then i else indexOf_from (i + 1)%Z l' x
  end.

Definition indexOf {A} `{EqDecision A} : list A -> A -> Z := indexOf_from 0%Z.

(** [l.splice(i, 1)] for an index [i] inside the array. *)
Definition splice1 {A} (i : Z) (l : list A) : list A :=
  take (Z.to_nat i) l ++ drop (S (Z.to_nat i)) l.

(** The array after
    [const index = l.indexOf(x); if (index > -1) l.splice(index, 1);]. *)
Definition spliceOut {A} `{EqDecision A} (x : A) (l : list A) : list A :=
  let index := indexOf l x in
  if (index >? -1)%Z then splice1 index l else l.

End Js.
Export Js.

(* ===================================================================== *)
(** ** components/TransactionStatus.jsx: step derivation                  *)
(* ===================================================================== *)

Module Steps.

(** The fetched record; the view reads [status] for the progress bar and
    only displays the other fields. *)
Record Transaction := {
  _id : string;
  status : string;
  amountUSD : Z;
  usdtAmount : Z;
  walletAddress : string;
  transactionHash : option string;
  errorMessage : option string
}.

Definition statusOrder : list string :=
  [ "pending"; "payment_processing"; "payment_confirmed";
    "converting_to_usdt"; "usdt_sent"; "completed" ].

Definition getStepStatus (transaction : option Transaction) (step : string)
  : string :=
  match transaction with
  | None => "pending"
  | Some t =>
      let currentIndex := indexOf statusOrder (status t) in
      let stepIndex := indexOf statusOrder step in
      if String.eqb (status t) "failed" then
        if (currentIndex >=? stepIndex)%Z then "failed" else "pending"
      else if (currentIndex >=? stepIndex)%Z then "completed"
      else if (currentIndex + 1 =? stepIndex)%Z then "active"
      else "pending"
  end.

(** The [key]s of the [steps] array, in display order. *)
Definition steps : list string :=
  [ "payment_processing"; "payment_confirmed"; "converting_to_usdt";
    "usdt_sent"; "completed" ].

(** [steps.map(step => getStepStatus(step.key))], what the progress bar
    renders. *)
Definition deriveSteps (transaction : option Transaction) : list string :=
  map (getStepStatus transaction) steps.

(** The statuses that are not the failure status. *)
Definition liveStatuses : list string := statusOrder.

(** Position of a status in the total order
    [pending < payment_processing < ... < completed]. *)
Definition order (s : string) : Z := indexOf statusOrder s.

(** A transaction as the view holds it after a sequence of refreshes: each
    refresh replaces the record ([setTransaction(response.data.transaction)]),
    so only the last fetched record is kept. *)
Definition afterRefreshes (fetched : list Transaction) : option Transaction :=
  last fetched.

Definition withStatus (s : string) (t : Transaction) : Transaction :=
  {| _id := _id t; status := s; amountUSD := amountUSD t;
     usdtAmount := usdtAmount t; walletAddress := walletAddress t;
     transactionHash := transactionHash t; errorMessage := errorMessage t |}.

Definition tx0 : Transaction :=
  {| _id := "t1"; status := "pending"; amountUSD := 100; usdtAmount := 0;
     walletAddress := "TXYZ"; transactionHash := None; errorMessage := None |}.

End Steps.


(* ===================================================================== *)
(** ** Persisted client state ([localStorage])                            *)
(* ===================================================================== *)

Module Storage.

(** A stored text.  [JsonText v] is [JSON.stringify(v)], which
    [JSON.parse] maps back to [v]; the repository writes the ['user'] item
    only that way.  [RawText s] is a non-empty text written as it is (the
    bearer token), one that [JSON.parse] rejects. *)
Inductive item : Type :=
  | JsonText (v : jsval)
  | RawText (s : string).

Abbreviation localStorage := (gmap string item).

(** [JSON.parse(localStorage.getItem(k) || dflt)] where [dflt] is a JSON
    text for the value [d].  [None] is the SyntaxError. *)
Definition parseItemOr (k : string) (d : jsval) (ls : localStorage)
  : option jsval :=
  match ls !! k with
  | None => Some d
  | Some (JsonText v) => Some v
  | Some (RawText _) => None
  end.

Definition removeItem (k : string) (ls : localStorage) : localStorage :=
  delete k ls.

Definition setItem (k : string) (v : item) (ls : localStorage) : localStorage :=
  <[k := v]> ls.

End Storage.
Export Storage.

(* ===================================================================== *)
(** ** services/websocket.js                                              *)
(* ===================================================================== *)

Module WebSocket.

(** The listeners that [connect()] installs on a new socket. *)
Inductive internal : Type :=
  | OnConnect | OnDisconnect | OnConnectError | OnReconnect
  | OnReconnectAttempt | OnReconnectFailed | OnError.

(** A function object: one of the arrow functions of [connect()], or a
    function of a caller, known by its reference. *)
Inductive callback : Type :=
  | Internal (h : internal)
  | Fn (ref : nat).

#[global] Instance internal_eq_dec : EqDecision internal.
Proof. solve_decision. Defined.
#[global] Instance callback_eq_dec : EqDecision callback.
Proof. solve_decision. Defined.

(** Calls made on the socket.io client, in program order. *)
Inductive wireAction : Type :=
  | Io                                      (* io(SOCKET_URL, {...}) *)
  | Emit (event : string) (payload : jsval) (* socket.emit(event, payload) *)
  | SockDisconnect                          (* socket.disconnect() *)
  | SockConnect.                            (* socket.connect() *)

(** The socket.io client object: its [connected] flag and its
    event-emitter registry (event name to callbacks in registration order;
    an event with no callback has no entry). *)
Record Socket := {
  connected : bool;
  handlers : gmap string (list callback)
}.

Record Service := {
  socket : option Socket;
  listeners : gmap string (list callback);
  wire : list wireAction
}.

(** [new WebSocketService()] *)
Definition init : Service :=
  {| socket := None; listeners := ∅; wire := [] |}.

Definition logWire (a : wireAction) (s : Service) : Service :=
  {| socket := socket s; listeners := listeners s; wire := wire s ++ [a] |}.

(** Emitter [on]: append to the event's array. *)
Definition emitterOn (event : string) (cb : callback) (sock : Socket) : Socket :=
  {| connected := connected sock;
     handlers := <[event := default [] (handlers sock !! event) ++ [cb]]>
                   (handlers sock) |}.

(** Emitter [off(event, fn)]: splice out the first callback identical to
    [fn]; drop the entry when the array becomes empty. *)
Definition emitterOff (event : string) (cb : callback) (sock : Socket) : Socket :=
  match handlers sock !! event with
  | None => sock
  | Some callbacks =>
      let callbacks' := spliceOut cb callbacks in
      {| connected := connected sock;
         handlers := match callbacks' with
                     | [] => delete event (handlers sock)
                     | _ => <[event := callbacks']> (handlers sock)
                     end |}
  end.

(** Emitter [removeAllListeners(event)] *)
Definition emitterRemoveAll (event : string) (sock : Socket) : Socket :=
  {| connected := connected sock; handlers := delete event (handlers sock) |}.

(** The socket returned by [io(...)], after [connect()] has installed its
    seven listeners. *)
Definition newSocket : Socket :=
  {| connected := false;
     handlers :=
       list_to_map
         [ ("connect", [Internal OnConnect]);
           ("disconnect", [Internal OnDisconnect]);
           ("connect_error", [Internal OnConnectError]);
           ("reconnect", [Internal OnReconnect]);
           ("reconnect_attempt", [Internal OnReconnectAttempt]);
           ("reconnect_failed", [Internal OnReconnectFailed]);
           ("error", [Internal OnError]) ] |}.

Definition connect (s : Service) : Service :=
  if match socket s with Some sock => connected sock | None => false end
  then s
  else {| socket := Some newSocket; listeners := listeners s;
          wire := wire s ++ [Io] |}.

Definition disconnect (s : Service) : Service :=
  match socket s with
  | Some _ =>
      {| socket := None; listeners := listeners s;
         wire := wire s ++ [SockDisconnect] |}
  | None => s
  end.

Definition joinRoom (userId : jsval) (s : Service) : Service :=
  match socket s with
  | Some _ => logWire (Emit "join" userId) s
  | None => s
  end.

Definition leaveRoom (userId : jsval) (s : Service) : Service :=
  match socket s with
  | Some _ => logWire (Emit "leave" userId) s
  | None => s
  end.

Definition on (event : string) (cb : callback) (s : Service) : Service :=
  match socket s with
  | Some sock =>
      {| socket := Some (emitterOn event cb sock);
         listeners :=
           (let ls := match listeners s !! event with
                      | None => <[event := []]> (listeners s)
                      | Some _ => listeners s
                      end in
            <[event := default [] (ls !! event) ++ [cb]]> ls);
         wire := wire s |}
  | None => s
  end.

(** The array held by the Map is spliced in place: the Map keeps the key
    and holds the shortened array. *)
Definition off (event : string) (cb : callback) (s : Service) : Service :=
  match socket s with
  | Some sock =>
      {| socket := Some (emitterOff event cb sock);
         listeners :=
           match listeners s !! event with
           | Some callbacks =>
               <[event := spliceOut cb callbacks]> (listeners s)
           | None => listeners s
           end;
         wire := wire s |}
  | None => s
  end.

Definition removeAllListeners (event : string) (s : Service) : Service :=
  match socket s with
  | Some sock =>
      {| socket := Some (emitterRemoveAll event sock);
         listeners := delete event (listeners s);
         wire := wire s |}
  | None => s
  end.

(** The array stored for [event] in [this.listeners] ([[]] when the Map has
    no such key). *)
Definition registry (event : string) (s : Service) : list callback :=
  default [] (listeners s !! event).

(** The callbacks the socket itself holds for [event]. *)
Definition socketRegistry (event : string) (s : Service) : list callback :=
  match socket s with
  | Some sock => default [] (handlers sock !! event)
  | None => []
  end.

(** *** Transport events *)

(** Body of one of the listeners of [connect()], run on the service as
    it is when the event fires ([this.socket] is the socket the service
    holds then).  [None]: the body throws (before it has changed
    anything). *)
Definition runInternal (ls : localStorage) (h : internal) (arg : jsval)
    (s : Service) : option Service :=
  match h with
  | OnConnect =>
      user ← parseItemOr "user" (VObj []) ls;
      uid ← prop user "_id";
      Some (if truthy uid then joinRoom uid s else s)
  | OnDisconnect =>
      match arg with
      | VStr reason =>
          if decide (reason = "io server disconnect")
          then match socket s with
               | Some _ => Some (logWire SockConnect s)
               | None => None        (* this.socket is null *)
               end
          else Some s
      | _ => Some s
      end
  | OnConnectError =>
      _ ← prop arg "message";         (* reads error.message *)
      Some s
  | _ => Some s
  end.

(** Emitter [emit]: the callbacks registered for the event are called in
    order; a callback that throws ends the dispatch.  The caller's
    functions are returned for the caller to run: [connect()]'s own
    listeners were registered first, so they run first. *)
Fixpoint dispatch (ls : localStorage) (arg : jsval) (cbs : list callback)
    (s : Service) : Service * list nat :=
  match cbs with
  | [] => (s, [])
  | Internal h :: cbs' =>
      match runInternal ls h arg s with
      | Some s' => dispatch ls arg cbs' s'
      | None => (s, [])
      end
  | Fn r :: cbs' =>
      let '(s', rs) := dispatch ls arg cbs' s in (s', r :: rs)
  end.

Definition setConnected (b : bool) (s : Service) : Service :=
  match socket s with
  | Some sock =>
      {| socket := Some {| connected := b; handlers := handlers sock |};
         listeners := listeners s; wire := wire s |}
  | None => s
  end.

(** The socket fires [event] with argument [arg].  The transport sets
    [connected] before it announces ['connect'] and clears it before
    ['disconnect']. *)
Definition fire (ls : localStorage) (event : string) (arg : jsval)
    (s : Service) : Service * list nat :=
  match socket s with
  | None => (s, [])
  | Some sock =>
      let s1 := if decide (event = "connect") then setConnected true s
                else if decide (event = "disconnect") then setConnected false s
                else s in
      dispatch ls arg (default [] (handlers sock !! event)) s1
  end.

(** The socket [connect()] lets go of without disconnecting it: the one
    the service holds when that one is not connected.  It stays open, with
    the listeners installed on it. *)
Definition droppedByConnect (s : Service) : list Socket :=
  match socket s with
  | Some sock => if connected sock then [] else [sock]
  | None => []
  end.

(** A socket the service no longer holds fires [event].  Its listeners
    are those [connect()] and the callers installed on it; the bodies of
    [connect()]'s listeners act on the service as it is now. *)
Definition fireDetached (ls : localStorage) (event : string) (arg : jsval)
    (sock : Socket) (s : Service) : Socket * (Service * list nat) :=
  let sock1 :=
    if decide (event = "connect")
    then {| connected := true; handlers := handlers sock |}
    else if decide (event = "disconnect")
    then {| connected := false; handlers := handlers sock |}
    else sock in
  (sock1, dispatch ls arg (default [] (handlers sock !! event)) s).


(** The room the ['connect'] listener asks for, read off the storage: the
    [_id] of the parsed ['user'] item when that is truthy, nothing
    otherwise (item absent, not parsable, [null], or without [_id]). *)
Definition storedUserId (ls : localStorage) : list jsval :=
  match parseItemOr "user" (VObj []) ls with
  | Some user =>
      match prop user "_id" with
      | Some uid => if truthy uid then [uid] else []
      | None => []
      end
  | None => []
  end.

(** The ['join'] / ['leave'] messages of a wire log. *)
Definition joins (w : list wireAction) : list jsval :=
  omap (fun a => match a with
                 | Emit e p => if decide (e = "join") then Some p else None
                 | _ => None
                 end) w.

Definition leaves (w : list wireAction) : list jsval :=
  omap (fun a => match a with
                 | Emit e p => if decide (e = "leave") then Some p else None
                 | _ => None
                 end) w.

End WebSocket.

(* ===================================================================== *)
(** ** context/AuthContext.jsx                                            *)
(* ===================================================================== *)

Module AuthContext.
Import WebSocket.

(** The provider's state cells, the stores it writes, and the state
    updates queued by [setUser] / [setToken]: an update called from an
    event handler is applied at the re-render that follows the handler. *)
Record Auth := {
  user : jsval;
  token : option string;
  storage : localStorage;
  svc : Service;
  queuedUser : option jsval;
  queuedToken : option (option string)
}.

(** Body of the effect with dependency [[user]]. *)
Definition userEffect (u : jsval) (s : Service) : Service :=
  if truthy u
  then joinRoom (default VUndef (prop u "_id")) (connect s)
  else disconnect s.

(** Its cleanup, closed over the [user] of the render that installed it. *)
Definition userCleanup (u : jsval) (s : Service) : Service :=
  if truthy u then leaveRoom (default VUndef (prop u "_id")) s else s.

(** [Object.is] on two values of the [user] cell: records come from
    [JSON.parse] or from a response, each a new object. *)
Definition sameUser (old new : jsval) : bool :=
  match old, new with
  | VNull, VNull | VUndef, VUndef => true
  | _, _ => false
  end.

(** What the effect with dependency [[token]] asks for: [setUser] of the
    stored record when there is one that parses.  Its [fetchUser()] is a
    request that settles later, outside the commit; it does not touch the
    service. *)
Definition tokenEffect (ls : localStorage) : option jsval :=
  match ls !! "user" with
  | Some (JsonText v) => Some v
  | _ => None
  end.

(** One re-render and commit: the queued updates become the state; the
    cleanups of the effects whose dependency changed run, then their
    bodies, in source order. *)
Definition rerender (a : Auth) : Auth :=
  let user' := default (user a) (queuedUser a) in
  let token' := default (token a) (queuedToken a) in
  let userChanged := negb (sameUser (user a) user') &&
                     bool_decide (is_Some (queuedUser a)) in
  let tokenChanged := negb (bool_decide (token a = token')) in
  let s1 := if userChanged then userCleanup (user a) (svc a) else svc a in
  let q := if tokenChanged then tokenEffect (storage a) else None in
  let s2 := if userChanged then userEffect user' s1 else s1 in
  {| user := user'; token := token'; storage := storage a; svc := s2;
     queuedUser := q; queuedToken := None |}.

Definition logout (a : Auth) : Auth :=
  {| user := user a; token := token a;
     storage := removeItem "user" (removeItem "token" (storage a));
     svc := disconnect (svc a);
     queuedUser := Some VNull; queuedToken := Some None |}.

(** The state updates of [login] / [register] once the response is in. *)
Definition loggedIn (u : jsval) (tok : string) (a : Auth) : Auth :=
  {| user := user a; token := token a;
     storage := setItem "user" (JsonText u)
                  (setItem "token" (RawText tok) (storage a));
     svc := svc a;
     queuedUser := Some u; queuedToken := Some (Some tok) |}.

(** The state updates of [updateUser] once the response is in. *)
Definition updatedUser (u : jsval) (a : Auth) : Auth :=
  {| user := user a; token := token a;
     storage := setItem "user" (JsonText u) (storage a);
     svc := svc a;
     queuedUser := Some u; queuedToken := queuedToken a |}.

(** A session in which user [u] is logged in: the record is stored, the
    [[user]] effect has run on a new service, and the socket has then
    connected. *)
Definition session (u : jsval) (tok : string) : Auth :=
  let ls := setItem "user" (JsonText u) (setItem "token" (RawText tok) ∅) in
  {| user := u; token := Some tok;
     storage := ls;
     svc := fst (fire ls "connect" VUndef (userEffect u WebSocket.init));
     queuedUser := None; queuedToken := None |}.

Definition userRecord (id : string) : jsval :=
  VObj [("_id", VStr id); ("email", VStr "a@b.c")].

(** The socket of the session fires ['connect']. *)
Definition transportConnect (a : Auth) : Auth :=
  {| user := user a; token := token a; storage := storage a;
     svc := fst (fire (storage a) "connect" VUndef (svc a));
     queuedUser := queuedUser a; queuedToken := queuedToken a |}.

Definition withUser (u : jsval) (a : Auth) : Auth :=
  {| user := u; token := token a; storage := storage a; svc := svc a;
     queuedUser := queuedUser a; queuedToken := queuedToken a |}.

(** Another tab, or the request layer on a 401, removes the stored record;
    the provider's state is not told. *)
Definition storageCleared (a : Auth) : Auth :=
  {| user := user a; token := token a;
     storage := removeItem "user" (removeItem "token" (storage a));
     svc := svc a;
     queuedUser := queuedUser a; queuedToken := queuedToken a |}.

End AuthContext.

(* ===================================================================== *)
(** ** services/api.js: the response interceptor                          *)
(* ===================================================================== *)

Module Api.

(** The error axios hands to the interceptor. *)
Record AxiosError := {
  code : string;
  message : string;
  response : option (Z * jsval)     (* status, data *)
}.

(** What the transport does with one request put on the wire. *)
Inductive attempt : Type :=
  | Responds (data : jsval)
  | Fails (e : AxiosError).

(** The part of the request config the interceptor reads and writes. *)
Record Config := {
  url : string;
  __retryCount : option Z
}.

Inductive settled : Type :=
  | Resolved (data : jsval)
  | Rejected (err : jsval).

Record Env := {
  store : localStorage;
  sent : nat;                 (* requests put on the wire *)
  redirected : bool           (* window.location.href = '/login' *)
}.

Definition timeoutMessage : string :=
  "Connection timeout. The server is taking too long to respond. Please try again.".
Definition networkMessage : string :=
  "Cannot connect to server. Please check your internet connection or try again later.".

(** [a || b] on strings held as values. *)
Definition orElse (a b : jsval) : jsval := if truthy a then a else b.

(** The own enumerable properties of a string: one per character, named
    by its index. *)
Fixpoint charFields (i : nat) (s : string) : list (string * jsval) :=
  match s with
  | EmptyString => []
  | String c s' => (pretty i, VStr (String c EmptyString)) :: charFields (S i) s'
  end.

(** [{ message, ...data }]: the properties of [data] are written after
    [message]; lookup takes the first match, so they go in front.  An
    object gives its fields, a string its characters, any other value
    nothing. *)
Definition spreadOver (data : jsval) (fields : list (string * jsval))
  : list (string * jsval) :=
  match data with
  | VObj fs => fs ++ fields
  | VStr s => charFields 0 s ++ fields
  | _ => fields
  end.

Definition isTimeoutError (e : AxiosError) : bool :=
  bool_decide (code e = "ECONNABORTED").

Definition isNetworkErr (e : AxiosError) : bool :=
  bool_decide (code e = "ERR_NETWORK") || bool_decide (message e = "Network Error").

(** [api.request(config)]: one request goes on the wire per call; [net] is
    what the transport answers to the successive requests.  With no answer
    left the request has been sent and the promise stays pending
    ([None]). *)
Fixpoint request (config : Config) (net : list attempt) (env : Env)
  : option settled * Env :=
  let env1 := {| store := store env; sent := S (sent env);
                 redirected := redirected env |} in
  match net with
  | [] => (None, env1)
  | a :: net' =>
      match a with
      | Responds data => (Some (Resolved data), env1)
      | Fails error =>
          if isTimeoutError error then
            let shouldRetry := match __retryCount config with
                               | None => true
                               | Some n => (n =? 0)%Z
                               end in
            if shouldRetry
            then request {| url := url config; __retryCount := Some 1%Z |}
                         net' env1
            else (Some (Rejected (VObj [("message", VStr timeoutMessage);
                                        ("isTimeout", VBool true)])), env1)
          else if isNetworkErr error then
            (Some (Rejected (VObj [("message", VStr networkMessage);
                                   ("isNetworkError", VBool true)])), env1)
          else
            match response error with
            | Some (status, data) =>
                let msg :=
                  orElse (match data with
                          | VObj fs => assoc "message" fs
                          | _ => VUndef
                          end)
                         (orElse (VStr (message error))
                                 (VStr "An error occurred")) in
                let env2 :=
                  if (status =? 401)%Z
                  then {| store := removeItem "user"
                                     (removeItem "token" (store env1));
                          sent := sent env1; redirected := true |}
                  else env1 in
                (Some (Rejected (VObj (spreadOver data [("message", msg)]))),
                 env2)
            | None =>
                (Some (Rejected
                         (VObj [("message",
                                 orElse (VStr (message error))
                                        (VStr "An unexpected error occurred"))])),
                 env1)
            end
      end
  end.

Definition env0 : Env := {| store := ∅; sent := 0; redirected := false |}.

Definition freshConfig (u : string) : Config :=
  {| url := u; __retryCount := None |}.

Definition timeoutError : AxiosError :=
  {| code := "ECONNABORTED"; message := "timeout of 90000ms exceeded";
     response := None |}.

End Api.

(* ===================================================================== *)
(** ** components/TransactionStatus.jsx: the mounted component            *)
(* ===================================================================== *)

Module View.
Import WebSocket Steps.

(** What a render's [fetchTransaction] / [handleTransactionUpdate] close
    over: the component instance (whose setters they call) and the route
    parameter [id] of that render. *)
Record Closure := { cl_inst : nat; cl_id : string }.

(** The effect currently installed: its instance, the [id] it ran for, and
    the reference of the [handleTransactionUpdate] it subscribed. *)
Record Instance := { i_inst : nat; i_id : string; i_cb : nat }.

(** Calls made by the continuation of [fetchTransaction]. *)
Inductive call : Type :=
  | SetTransaction (t : Transaction)
  | SetLoading (b : bool)
  | ToastError (msg : string).

Record World := {
  svc : Service;
  ls : localStorage;
  closures : gmap nat Closure;    (* the handler functions created so far *)
  nextRef : nat;
  nextInst : nat;
  mounted : option Instance;
  inflight : list Closure;        (* getTransaction requests not yet settled *)
  requests : list string;         (* every getTransaction(id) issued, in order *)
  calls : list (nat * call);      (* instance whose setter was called, call *)
  invoked : list nat;             (* handler invocations, by reference *)
  replaced : list Socket          (* sockets [connect()] let go of, still open *)
}.

Definition world0 : World :=
  {| svc := WebSocket.init; ls := ∅; closures := ∅; nextRef := 0;
     nextInst := 0; mounted := None; inflight := []; requests := [];
     calls := []; invoked := []; replaced := [] |}.

Definition setSvc (s : Service) (w : World) : World :=
  {| svc := s; ls := ls w; closures := closures w; nextRef := nextRef w;
     nextInst := nextInst w; mounted := mounted w; inflight := inflight w;
     requests := requests w; calls := calls w; invoked := invoked w;
     replaced := replaced w |}.

Definition setMounted (m : option Instance) (w : World) : World :=
  {| svc := svc w; ls := ls w; closures := closures w; nextRef := nextRef w;
     nextInst := nextInst w; mounted := m; inflight := inflight w;
     requests := requests w; calls := calls w; invoked := invoked w;
     replaced := replaced w |}.

Definition setReplaced (l : list Socket) (w : World) : World :=
  {| svc := svc w; ls := ls w; closures := closures w; nextRef := nextRef w;
     nextInst := nextInst w; mounted := mounted w; inflight := inflight w;
     requests := requests w; calls := calls w; invoked := invoked w;
     replaced := l |}.

(** [fetchTransaction()] up to its [await]: the request is issued. *)
Definition fetchTransaction (c : Closure) (w : World) : World :=
  {| svc := svc w; ls := ls w; closures := closures w; nextRef := nextRef w;
     nextInst := nextInst w; mounted := mounted w;
     inflight := inflight w ++ [c];
     requests := requests w ++ [cl_id c];
     calls := calls w; invoked := invoked w;
     replaced := replaced w |}.

(** [fetchTransaction()] after its [await]: [Some t] is the fetched
    record, [None] a rejected request. *)
Definition fetchSettled (c : Closure) (r : option Transaction) (w : World)
  : World :=
  {| svc := svc w; ls := ls w; closures := closures w; nextRef := nextRef w;
     nextInst := nextInst w; mounted := mounted w;
     inflight := inflight w; requests := requests w;
     calls := calls w ++
              match r with
              | Some t => [(cl_inst c, SetTransaction t)]
              | None => [(cl_inst c, ToastError "Failed to load transaction")]
              end ++ [(cl_inst c, SetLoading false)];
     invoked := invoked w;
     replaced := replaced w |}.

Definition noteInvoked (r : nat) (w : World) : World :=
  {| svc := svc w; ls := ls w; closures := closures w; nextRef := nextRef w;
     nextInst := nextInst w; mounted := mounted w; inflight := inflight w;
     requests := requests w; calls := calls w; invoked := invoked w ++ [r];
     replaced := replaced w |}.

(** [handleTransactionUpdate(data)] of the closure with reference [r].
    [None]: reading [data.transactionId] throws. *)
Definition handleTransactionUpdate (r : nat) (data : jsval) (w : World)
  : option World :=
  let w1 := noteInvoked r w in
  match closures w !! r with
  | None => Some w1
  | Some c =>
      match prop data "transactionId" with
      | None => None
      | Some (VStr tid) =>
          if decide (tid = cl_id c) then Some (fetchTransaction c w1)
          else Some w1
      | Some _ => Some w1
      end
  end.

(** The caller's functions handed back by the dispatch are called in
    order; one that throws ends the dispatch. *)
Fixpoint callAll (rs : list nat) (data : jsval) (w : World) : World :=
  match rs with
  | [] => w
  | r :: rs' =>
      match handleTransactionUpdate r data w with
      | Some w' => callAll rs' data w'
      | None => noteInvoked r w
      end
  end.

(** The effect body for a render with route parameter [id]. *)
Definition effect (inst : nat) (id : string) (w : World) : World :=
  let c := {| cl_inst := inst; cl_id := id |} in
  let r := nextRef w in
  let w1 := fetchTransaction c w in
  {| svc := on "transaction_update" (Fn r) (svc w1); ls := ls w1;
     closures := <[r := c]> (closures w1); nextRef := S r;
     nextInst := nextInst w1;
     mounted := Some {| i_inst := inst; i_id := id; i_cb := r |};
     inflight := inflight w1; requests := requests w1; calls := calls w1;
     invoked := invoked w1;
     replaced := replaced w1 |}.

(** The effect's cleanup. *)
Definition cleanup (m : Instance) (w : World) : World :=
  setMounted None (setSvc (off "transaction_update" (Fn (i_cb m)) (svc w)) w).

Inductive event : Type :=
  | Mount (id : string)
  | Navigate (id : string)                 (* the route parameter changes *)
  | Unmount
  | Transport (name : string) (arg : jsval) (* the held socket fires an event *)
  | Settle (i : nat) (r : option Transaction)
                                           (* the i-th pending request settles *)
  | SvcConnect                             (* websocketService.connect() *)
  | SvcDisconnect                          (* websocketService.disconnect() *)
  | OldTransport (k : nat) (name : string) (arg : jsval).
                                           (* the k-th replaced socket fires *)

Definition step (e : event) (w : World) : World :=
  match e with
  | Mount id =>
      match mounted w with
      | Some _ => w
      | None =>
          let w1 := effect (nextInst w) id w in
          {| svc := svc w1; ls := ls w1; closures := closures w1;
             nextRef := nextRef w1; nextInst := S (nextInst w1);
             mounted := mounted w1; inflight := inflight w1;
             requests := requests w1; calls := calls w1;
             invoked := invoked w1;
     replaced := replaced w1 |}
      end
  | Navigate id =>
      match mounted w with
      | Some m =>
          if decide (i_id m = id) then w
          else effect (i_inst m) id (cleanup m w)
      | None => w
      end
  | Unmount =>
      match mounted w with
      | Some m => cleanup m w
      | None => w
      end
  | Transport name arg =>
      let '(s, rs) := fire (ls w) name arg (svc w) in
      callAll rs arg (setSvc s w)
  | Settle i r =>
      match inflight w !! i with
      | Some c =>
          fetchSettled c r
            {| svc := svc w; ls := ls w; closures := closures w;
               nextRef := nextRef w; nextInst := nextInst w;
               mounted := mounted w; inflight := delete i (inflight w);
               requests := requests w; calls := calls w;
               invoked := invoked w;
     replaced := replaced w |}
      | None => w
      end
  | SvcConnect =>
      setReplaced (replaced w ++ droppedByConnect (svc w))
        (setSvc (connect (svc w)) w)
  | SvcDisconnect => setSvc (disconnect (svc w)) w
  | OldTransport k name arg =>
      match replaced w !! k with
      | Some sock =>
          let '(sock', (s, rs)) := fireDetached (ls w) name arg sock (svc w) in
          callAll rs arg (setReplaced (<[k := sock']> (replaced w)) (setSvc s w))
      | None => w
      end
  end.

Definition run (tr : list event) (w : World) : World :=
  foldl (fun w e => step e w) w tr.

(** A push notification naming transaction [tid], delivered on the socket
    the service holds. *)
Definition Push (tid : string) : event :=
  Transport "transaction_update" (VObj [("transactionId", VStr tid)]).

(** The socket holds a [handleTransactionUpdate] only of the effect that is
    installed. *)
Definition subscribedOnlyWhileMounted (w : World) : Prop :=
  match mounted w with
  | None => socketRegistry "transaction_update" (svc w) = []
  | Some m =>
      socketRegistry "transaction_update" (svc w) = [] \/
      socketRegistry "transaction_update" (svc w) = [Fn (i_cb m)]
  end.

(** The component is shown, for transaction [tid], with a live transport
    and its initial fetch in flight. *)
Definition viewing (tid : string) : World :=
  run [SvcConnect; Mount tid] world0.

End View.


(* ===================================================================== *)
(** ** utils/formatters.js                                                *)
(* ===================================================================== *)

Module Formatters.

(** [s.slice(from, to)] with both indexes given; a negative index counts
    from the end.  Lengths are in characters of the [string]; for the ASCII
    texts the callers pass (addresses, hashes) those are the code units
    JavaScript counts. *)
Definition sliceIndex (len i : Z) : Z :=
  if (i <? 0)%Z then Z.max (len + i) 0 else Z.min i len.

Definition slice (from to : Z) (s : string) : string :=
  let len := Z.of_nat (String.length s) in
  let a := sliceIndex len from in
  let b := sliceIndex len to in
  String.substring (Z.to_nat a) (Z.to_nat (b - a)) s.

(** [s.slice(from)] *)
Definition sliceFrom (from : Z) (s : string) : string :=
  slice from (Z.of_nat (String.length s)) s.

(** [address] is [None] for [null] / [undefined]. *)
Definition truncateAddress (address : option string) (start stop : Z)
  : string :=
  match address with
  | None => ""
  | Some a =>
      if String.eqb a "" then ""
      else if (Z.of_nat (String.length a) <=? start + stop)%Z then a
      else String.append (slice 0 start a)
             (String.append "..." (sliceFrom (- stop) a))
  end.

(** The own properties of the [texts] / [colors] object literals. *)
Definition texts : list (string * string) :=
  [ ("pending", "Pending");
    ("payment_processing", "Processing Payment");
    ("payment_confirmed", "Payment Confirmed");
    ("converting_to_usdt", "Converting to USDT");
    ("usdt_sent", "USDT Sent");
    ("completed", "Completed");
    ("failed", "Failed") ].

Definition colors : list (string * string) :=
  [ ("pending", "bg-yellow-100 text-yellow-800");
    ("payment_processing", "bg-blue-100 text-blue-800");
    ("payment_confirmed", "bg-green-100 text-green-800");
    ("converting_to_usdt", "bg-purple-100 text-purple-800");
    ("usdt_sent", "bg-indigo-100 text-indigo-800");
    ("completed", "bg-green-100 text-green-800");
    ("failed", "bg-red-100 text-red-800") ].

Fixpoint ownProperty (k : string) (o : list (string * string)) : option string :=
  match o with
  | [] => None
  | (k', v) :: o' => if String.eqb k' k then Some v else ownProperty k o'
  end.

(** Names every object literal inherits from [Object.prototype]; [o[k]]
    for such a [k] is that member, not a string of the table. *)
Definition objectPrototypeNames : list string :=
  [ "constructor"; "hasOwnProperty"; "isPrototypeOf"; "propertyIsEnumerable";
    "toLocaleString"; "toString"; "valueOf"; "__proto__";
    "__defineGetter__"; "__defineSetter__"; "__lookupGetter__";
    "__lookupSetter__" ].

(** [o[status] || dflt] for a table whose own values are non-empty
    strings.  [None]: the result is an inherited member of
    [Object.prototype]. *)
Definition lookupOr (o : list (string * string)) (status dflt : string)
  : option string :=
  match ownProperty status o with
  | Some v => Some (if String.eqb v "" then dflt else v)
  | None =>
      if bool_decide (status ∈ objectPrototypeNames) then None
      else Some dflt
  end.

Definition getStatusColor (status : string) : option string :=
  lookupOr colors status "bg-gray-100 text-gray-800".

Definition getStatusText (status : string) : option string :=
  lookupOr texts status status.

End Formatters.

(* ===================================================================== *)
(** ** Sequences of calls on the channel manager                          *)
(* ===================================================================== *)

Module ServiceOps.
Import WebSocket.

(** A call of one of the service's methods, or an event fired by the
    transport on the service's socket. *)
Inductive op : Type :=
  | OpConnect
  | OpDisconnect
  | OpJoinRoom (userId : jsval)
  | OpLeaveRoom (userId : jsval)
  | OpOn (event : string) (cb : callback)
  | OpOff (event : string) (cb : callback)
  | OpRemoveAllListeners (event : string)
  | OpFire (ls : localStorage) (event : string) (arg : jsval).

Definition applyOp (o : op) (s : Service) : Service :=
  match o with
  | OpConnect => connect s
  | OpDisconnect => disconnect s
  | OpJoinRoom u => joinRoom u s
  | OpLeaveRoom u => leaveRoom u s
  | OpOn e cb => on e cb s
  | OpOff e cb => off e cb s
  | OpRemoveAllListeners e => removeAllListeners e s
  | OpFire ls e arg => fst (fire ls e arg s)
  end.

Definition runOps (os : list op) (s : Service) : Service :=
  foldl (fun s o => applyOp o s) s os.

(** Sockets opened and sockets disconnected, on a wire log. *)
Definition isIo (a : wireAction) : bool :=
  match a with Io => true | _ => false end.

Definition isSockDisconnect (a : wireAction) : bool :=
  match a with SockDisconnect => true | _ => false end.

Definition opens (w : list wireAction) : nat :=
  length (List.filter isIo w).

Definition closes (w : list wireAction) : nat :=
  length (List.filter isSockDisconnect w).

(** Subscribing and unsubscribing functions of callers. *)
Inductive subOp : Type :=
  | SubOn (event : string) (ref : nat)
  | SubOff (event : string) (ref : nat).

Definition applySub (o : subOp) (s : Service) : Service :=
  match o with
  | SubOn e r => on e (Fn r) s
  | SubOff e r => off e (Fn r) s
  end.

Definition runSubs (os : list subOp) (s : Service) : Service :=
  foldl (fun s o => applySub o s) s os.

(** The listeners [connect()] itself installs for [event]. *)
Definition internals (event : string) : list callback :=
  default [] (handlers newSocket !! event).

Definition socketConnected (s : Service) : bool :=
  match socket s with Some sock => connected sock | None => false end.

(** Sockets the service holds: one or none. *)
Definition held (s : Service) : nat :=
  match socket s with Some _ => 1 | None => 0 end.

(** The transport events whose listeners only write to the console. *)
Definition loggedOnlyEvents : list string :=
  [ "connect_error"; "reconnect"; "reconnect_attempt"; "reconnect_failed";
    "error" ].

End ServiceOps.

(* ===================================================================== *)
(** ** Progress of the step display                                       *)
(* ===================================================================== *)

Module Progress.

(** How far a step display state is: pending, then active, then
    completed. *)
Definition rank (display : string) : nat :=
  if String.eqb display "completed" then 2
  else if String.eqb display "active" then 1
  else 0.

End Progress.

(* ===================================================================== *)
(** ** Events of the mounted view, by kind                                *)
(* ===================================================================== *)

Module ViewEvents.
Import View.

(** Events that do not run the component's effect or its cleanup. *)
Definition keepsEffect (e : event) : bool :=
  match e with
  | Mount _ | Navigate _ | Unmount => false
  | _ => true
  end.

End ViewEvents.

(* ===================================================================== *)
(** * Properties                                                          *)
(* ===================================================================== *)

(** ** Arrays *)

Section Arrays.
Context {A : Type} `{EqDecision A}.

Lemma indexOf_from_absent (i : Z) (l : list A) (x : A) :
  x ∉ l -> indexOf_from i l x = (-1)%Z.
Proof.
  revert i. induction l as [|y l IH]; intros i Hx; simpl; [reflexivity|].
  apply not_elem_of_cons in Hx as [Hne Hl].
  destruct (decide (y = x)) as [->|_]; [congruence|]. now apply IH.
Qed.

Lemma indexOf_from_first (i : Z) (l1 l2 : list A) (x : A) :
  x ∉ l1 -> indexOf_from i (l1 ++ x :: l2) x = (i + Z.of_nat (length l1))%Z.
Proof.
  revert i. induction l1 as [|y l1 IH]; intros i Hx; simpl.
  - destruct (decide (x = x)); [lia | congruence].
  - apply not_elem_of_cons in Hx as [Hne Hl].
    destruct (decide (y = x)) as [->|_]; [congruence|].
    rewrite IH by assumption. lia.
Qed.

Lemma spliceOut_absent (x : A) (l : list A) : x ∉ l -> spliceOut x l = l.
Proof.
  intros Hx. unfold spliceOut, indexOf.
  rewrite indexOf_from_absent by assumption. reflexivity.
Qed.

Lemma spliceOut_first (x : A) (l1 l2 : list A) :
  x ∉ l1 -> spliceOut x (l1 ++ x :: l2) = l1 ++ l2.
Proof.
  intros Hx. unfold spliceOut, indexOf.
  rewrite indexOf_from_first by assumption.
  replace (0 + Z.of_nat (length l1) >? -1)%Z with true
    by (symmetry; apply Z.gtb_lt; lia).
  unfold splice1. rewrite Z.add_0_l, Nat2Z.id.
  rewrite take_app_length.
  replace (S (length l1)) with (length l1 + 1) by lia.
  rewrite <- drop_drop, drop_app_length. reflexivity.
Qed.

Lemma spliceOut_nil (x : A) : spliceOut x [] = [].
Proof. reflexivity. Qed.

Lemma spliceOut_singleton (x : A) : spliceOut x [x] = [].
Proof. apply (spliceOut_first x [] []). apply not_elem_of_nil. Qed.

Lemma spliceOut_snoc_fresh (x : A) (l : list A) :
  x ∉ l -> spliceOut x (l ++ [x]) = l.
Proof. intros Hx. rewrite spliceOut_first by assumption. apply app_nil_r. Qed.

End Arrays.

(** ** Step derivation *)

Section StepFacts.
Import Steps.

Lemma status_withStatus (s : string) (t : Transaction) :
  status (withStatus s t) = s.
Proof. reflexivity. Qed.

(** The derived list reads the record's [status] and nothing else. *)
Lemma deriveSteps_status_only (t t' : Transaction) :
  status t = status t' -> deriveSteps (Some t) = deriveSteps (Some t').
Proof.
  intros E. unfold deriveSteps, getStepStatus. rewrite E. reflexivity.
Qed.

(** C3. For a transaction whose status [s] is one of pending,
    payment_processing, payment_confirmed, converting_to_usdt, usdt_sent,
    completed, the five derived step states are: [order s] times
    'completed' (the whole list when [s] is 'completed'), then one 'active'
    unless all five are completed, then only 'pending'.  Step by step: a
    step is 'completed' when its order is at most [order s], 'active' when
    its order is [order s + 1], 'pending' otherwise.  Any two records with
    that status give the same list. *)
Theorem deriveSteps_live_shape (s : string) (t : Transaction) :
  In s liveStatuses ->
  deriveSteps (Some (withStatus s t)) =
    repeat "completed" (Z.to_nat (order s)) ++
    (if (order s <? 5)%Z then ["active"] else []) ++
    repeat "pending" (4 - Z.to_nat (order s))
  /\ (forall step, In step steps ->
        getStepStatus (Some (withStatus s t)) step =
          if (order step <=? order s)%Z then "completed"
          else if (order step =? order s + 1)%Z then "active"
          else "pending")
  /\ (forall t', status t' = s ->
        deriveSteps (Some t') = deriveSteps (Some (withStatus s t))).
Proof.
  intros Hs. split; [|split].
  - unfold liveStatuses, statusOrder in Hs. simpl in Hs.
    repeat (destruct Hs as [<-|Hs]; [reflexivity|]). destruct Hs.
  - intros step Hstep.
    unfold liveStatuses, statusOrder in Hs. simpl in Hs, Hstep.
    repeat (destruct Hs as [<-|Hs];
            [repeat (destruct Hstep as [<-|Hstep]; [reflexivity|]);
             destruct Hstep|]).
    destruct Hs.
  - intros t' E. apply deriveSteps_status_only. now rewrite status_withStatus.
Qed.

Lemma deriveSteps_live_shape_witness :
  In "payment_confirmed" liveStatuses /\
  deriveSteps (Some (withStatus "payment_confirmed" tx0)) =
    ["completed"; "completed"; "active"; "pending"; "pending"].
Proof.
  assert (H : In "payment_confirmed" liveStatuses) by (simpl; tauto).
  split; [exact H|].
  exact (proj1 (deriveSteps_live_shape "payment_confirmed" tx0 H)).
Defined.

(** C2 (what the code does). Once the fetched status is 'failed' every one
    of the five steps is derived as 'pending', whatever statuses earlier
    refreshes had shown: ['failed'] is not in [statusOrder], so
    [currentIndex] is [-1] and no step index is at or below it. *)
Theorem deriveSteps_failed_all_pending (prior : list Transaction)
    (t : Transaction) :
  deriveSteps (afterRefreshes (prior ++ [withStatus "failed" t])) =
    ["pending"; "pending"; "pending"; "pending"; "pending"].
Proof.
  unfold afterRefreshes. rewrite last_snoc. reflexivity.
Qed.

(** The view had shown payment_processing and then fetches 'failed': the
    first step is not derived as 'failed'. *)
Lemma failed_after_processing_not_marked :
  deriveSteps (afterRefreshes [withStatus "payment_processing" tx0;
                               withStatus "failed" tx0])
  <> ["failed"; "pending"; "pending"; "pending"; "pending"].
Proof. vm_compute. discriminate. Qed.

End StepFacts.

(** ** The listener registry of the channel manager *)

Section RegistryFacts.
Import WebSocket.

Lemma registry_on (event : string) (cb : callback) (s : Service) :
  is_Some (socket s) ->
  registry event (on event cb s) = registry event s ++ [cb].
Proof.
  intros [sock Hs]. unfold registry, on. rewrite Hs. simpl.
  rewrite lookup_insert_eq. simpl.
  destruct (listeners s !! event) as [l|] eqn:E; simpl.
  - now rewrite E.
  - now rewrite lookup_insert_eq.
Qed.

Lemma registry_on_other (event e' : string) (cb : callback) (s : Service) :
  e' <> event -> registry e' (on event cb s) = registry e' s.
Proof.
  intros Hne. unfold registry, on. destruct (socket s); [|reflexivity]. simpl.
  rewrite lookup_insert_ne by congruence.
  destruct (listeners s !! event); [reflexivity|].
  now rewrite lookup_insert_ne by congruence.
Qed.

Lemma registry_off (event : string) (cb : callback) (s : Service) :
  is_Some (socket s) ->
  registry event (off event cb s) = spliceOut cb (registry event s).
Proof.
  intros [sock Hs]. unfold registry, off. rewrite Hs. simpl.
  destruct (listeners s !! event) as [l|] eqn:E; simpl.
  - now rewrite lookup_insert_eq.
  - now rewrite E.
Qed.

Lemma registry_off_other (event e' : string) (cb : callback) (s : Service) :
  e' <> event -> registry e' (off event cb s) = registry e' s.
Proof.
  intros Hne. unfold registry, off. destruct (socket s); [|reflexivity]. simpl.
  destruct (listeners s !! event); [|reflexivity].
  now rewrite lookup_insert_ne by congruence.
Qed.


Lemma socketRegistry_on (event : string) (cb : callback) (s : Service) :
  is_Some (socket s) ->
  socketRegistry event (on event cb s) = socketRegistry event s ++ [cb].
Proof.
  intros [sock Hs]. unfold socketRegistry, on. rewrite Hs. simpl.
  now rewrite lookup_insert_eq.
Qed.

Lemma socketRegistry_off (event : string) (cb : callback) (s : Service) :
  socketRegistry event (off event cb s) = spliceOut cb (socketRegistry event s).
Proof.
  unfold socketRegistry, off.
  destruct (socket s) as [sock|] eqn:Hs; [|now rewrite Hs].
  simpl. unfold emitterOff.
  destruct (handlers sock !! event) as [l|] eqn:E; simpl.
  - destruct (spliceOut cb l) as [|c l'] eqn:El; simpl.
    + now rewrite lookup_delete_eq.
    + now rewrite lookup_insert_eq.
  - now rewrite E.
Qed.

Lemma on_without_socket (event : string) (cb : callback) (s : Service) :
  socket s = None -> on event cb s = s.
Proof. intros Hs. unfold on. now rewrite Hs. Qed.


Lemma socket_disconnect (s : Service) : socket (disconnect s) = None.
Proof. unfold disconnect. destruct (socket s) eqn:E; [reflexivity | exact E]. Qed.




End RegistryFacts.

(** ** Transport events of the channel manager *)

Section ChannelFacts.
Import WebSocket.

(** Case on whether the service holds a socket, in every place it is read. *)
Ltac case_socket s :=
  let H := fresh "Hs" in
  destruct (socket s) eqn:H; simpl; rewrite ?H; try reflexivity.

Lemma newSocket_internal_only (event : string) (cbs : list callback) :
  handlers newSocket !! event = Some cbs -> exists h, cbs = [Internal h].
Proof.
  unfold newSocket. cbn [handlers]. intros H.
  apply elem_of_list_to_map_2 in H.
  repeat (apply elem_of_cons in H as [H|H]; [inversion H; eauto|]).
  now apply elem_of_nil in H.
Qed.

Lemma dispatch_fns ls arg (rs : list nat) (s : Service) :
  dispatch ls arg (map Fn rs) s = (s, rs).
Proof.
  induction rs as [|r rs IH]; simpl; [reflexivity|]. now rewrite IH.
Qed.

Lemma wire_setConnected (b : bool) (s : Service) :
  wire (setConnected b s) = wire s.
Proof. unfold setConnected. now destruct (socket s). Qed.

Lemma socketRegistry_setConnected (e : string) (b : bool) (s : Service) :
  socketRegistry e (setConnected b s) = socketRegistry e s.
Proof. unfold socketRegistry, setConnected. case_socket s. Qed.

Lemma socketRegistry_logWire (e : string) (a : wireAction) (s : Service) :
  socketRegistry e (logWire a s) = socketRegistry e s.
Proof. reflexivity. Qed.

Lemma socketRegistry_joinRoom (e : string) (uid : jsval) (s : Service) :
  socketRegistry e (joinRoom uid s) = socketRegistry e s.
Proof. unfold joinRoom. case_socket s. Qed.

Lemma socketRegistry_runInternal ls h arg e (s s' : Service) :
  runInternal ls h arg s = Some s' -> socketRegistry e s' = socketRegistry e s.
Proof.
  destruct h; simpl; intros H; try (injection H as <-; reflexivity).
  - destruct (parseItemOr "user" (VObj []) ls) as [u|]; simpl in H; [|discriminate].
    destruct (prop u "_id") as [uid|]; simpl in H; [|discriminate].
    injection H as <-. destruct (truthy uid); [apply socketRegistry_joinRoom|reflexivity].
  - destruct arg; try (injection H as <-; reflexivity).
    destruct (decide _); [|injection H as <-; reflexivity].
    destruct (socket s); [injection H as <-; reflexivity | discriminate].
  - destruct (prop arg "message"); [injection H as <-; reflexivity | discriminate].
Qed.

Lemma socketRegistry_dispatch ls arg e (cbs : list callback) (s : Service) :
  socketRegistry e (fst (dispatch ls arg cbs s)) = socketRegistry e s.
Proof.
  revert s. induction cbs as [|[h|r] cbs IH]; intros s; simpl; [reflexivity| |].
  - destruct (runInternal ls h arg s) as [s'|] eqn:E; [|reflexivity].
    rewrite IH. eapply socketRegistry_runInternal; eassumption.
  - specialize (IH s). destruct (dispatch ls arg cbs s) as [s' rs]. exact IH.
Qed.

(** Firing an event leaves the socket's registry as it was. *)
Lemma socketRegistry_fire ls name arg e (s : Service) :
  socketRegistry e (fst (fire ls name arg s)) = socketRegistry e s.
Proof.
  unfold fire. destruct (socket s) as [sock|] eqn:Hs; [|reflexivity].
  rewrite socketRegistry_dispatch.
  destruct (decide (name = "connect")); [apply socketRegistry_setConnected|].
  destruct (decide (name = "disconnect")); [apply socketRegistry_setConnected|].
  reflexivity.
Qed.

Lemma joins_app (w1 w2 : list wireAction) : joins (w1 ++ w2) = joins w1 ++ joins w2.
Proof. unfold joins. apply omap_app. Qed.

(** One ['connect'] event: the join named by the storage, and no other. *)
Lemma joins_fire_connect ls arg (s : Service) (rs : list nat) :
  socketRegistry "connect" s = Internal OnConnect :: map Fn rs ->
  joins (wire (fst (fire ls "connect" arg s))) =
    joins (wire s) ++ storedUserId ls.
Proof.
  unfold socketRegistry, fire. destruct (socket s) as [sock|] eqn:Hs;
    [|discriminate].
  intros ->. simpl. unfold storedUserId.
  assert (Hs1 : is_Some (socket (setConnected true s)))
    by (unfold setConnected; rewrite Hs; simpl; eauto).
  destruct (parseItemOr "user" (VObj []) ls) as [u|]; simpl;
    [|now rewrite wire_setConnected, app_nil_r].
  destruct (prop u "_id") as [uid|]; simpl;
    [|now rewrite wire_setConnected, app_nil_r].
  rewrite dispatch_fns. simpl.
  destruct (truthy uid); [|now rewrite wire_setConnected, app_nil_r].
  unfold joinRoom. destruct Hs1 as [sock1 ->]. simpl.
  rewrite joins_app, wire_setConnected. reflexivity.
Qed.


Lemma fire_internal_only ls event arg (s : Service) (sock : Socket) :
  socket s = Some sock ->
  (forall cbs, handlers sock !! event = Some cbs -> exists h, cbs = [Internal h]) ->
  snd (fire ls event arg s) = [].
Proof.
  intros Hs Hint. unfold fire. rewrite Hs.
  destruct (handlers sock !! event) as [cbs|] eqn:E; [|reflexivity].
  destruct (Hint cbs eq_refl) as [h ->]. cbn [default from_option id dispatch].
  now destruct (runInternal _ _ _ _).
Qed.

(** C9. With no transport ([socket] is [null]), [on] returns the service
    as it was: neither a socket nor [listeners] records the callback.  That
    is the case before the first [connect()] and after [disconnect()].  The
    subscription is not replayed either: after a later [connect()], the
    event fires without calling the function. *)
Theorem on_without_socket_is_dropped (event : string) (cb : callback)
    (s : Service) :
  (socket s = None -> on event cb s = s)
  /\ on event cb init = init
  /\ on event cb (disconnect s) = disconnect s
  /\ (forall r ls arg, socket s = None ->
        snd (fire ls event arg (connect (on event (Fn r) s))) = []).
Proof.
  split; [|split; [|split]].
  - apply on_without_socket.
  - reflexivity.
  - apply on_without_socket, socket_disconnect.
  - intros r ls arg Hs. rewrite on_without_socket by assumption.
    apply (fire_internal_only _ _ _ _ newSocket).
    + unfold connect. now rewrite Hs.
    + apply newSocket_internal_only.
Qed.

Lemma on_without_socket_is_dropped_witness :
  socket init = None /\ on "transaction_update" (Fn 0) init = init.
Proof.
  split; [reflexivity|].
  apply (proj1 (on_without_socket_is_dropped "transaction_update" (Fn 0) init)).
  reflexivity.
Defined.




End ChannelFacts.

(** ** The session binding *)

Section SessionFacts.
Import WebSocket AuthContext.

Lemma storedUserId_absent (ls : localStorage) :
  ls !! "user" = None -> storedUserId ls = [].
Proof. intros H. unfold storedUserId, parseItemOr. now rewrite H. Qed.

Lemma storedUserId_record (ls : localStorage) (fs : list (string * jsval)) :
  ls !! "user" = Some (JsonText (VObj fs)) ->
  storedUserId ls = if truthy (assoc "_id" fs) then [assoc "_id" fs] else [].
Proof. intros H. unfold storedUserId, parseItemOr. now rewrite H. Qed.

(** C10. On a transport 'connect' event the join carries the [_id] of the
    'user' record parsed from local storage.  The provider's [user] state
    plays no part: replacing it changes nothing.  With no stored record,
    or a record whose [_id] is missing (or otherwise falsy), no join is
    emitted, whatever the provider's [user] is. *)
Theorem connect_join_reads_storage (a : Auth) (rs : list nat) :
  socketRegistry "connect" (svc a) = Internal OnConnect :: map Fn rs ->
  joins (wire (svc (transportConnect a))) =
    joins (wire (svc a)) ++ storedUserId (storage a)
  /\ (forall u, joins (wire (svc (transportConnect (withUser u a)))) =
                joins (wire (svc (transportConnect a))))
  /\ (storage a !! "user" = None ->
      joins (wire (svc (transportConnect a))) = joins (wire (svc a)))
  /\ (forall fs, storage a !! "user" = Some (JsonText (VObj fs)) ->
      truthy (assoc "_id" fs) = false ->
      joins (wire (svc (transportConnect a))) = joins (wire (svc a)))
  /\ (forall fs, storage a !! "user" = Some (JsonText (VObj fs)) ->
      truthy (assoc "_id" fs) = true ->
      joins (wire (svc (transportConnect a))) =
        joins (wire (svc a)) ++ [assoc "_id" fs]).
Proof.
  intros Hreg.
  assert (E : joins (wire (svc (transportConnect a))) =
              joins (wire (svc a)) ++ storedUserId (storage a))
    by (apply (joins_fire_connect _ _ _ rs); assumption).
  split; [exact E|]. split; [|split; [|split]].
  - intros u. reflexivity.
  - intros H. rewrite E, storedUserId_absent by assumption. apply app_nil_r.
  - intros fs H Hf. rewrite E, (storedUserId_record _ fs), Hf by assumption.
    apply app_nil_r.
  - intros fs H Ht. now rewrite E, (storedUserId_record _ fs), Ht by assumption.
Qed.

Lemma connect_join_reads_storage_witness :
  truthy (user (storageCleared (session (userRecord "u1") "tok"))) = true
  /\ joins (wire (svc (transportConnect
                        (storageCleared (session (userRecord "u1") "tok")))))
     = joins (wire (svc (storageCleared (session (userRecord "u1") "tok")))).
Proof.
  split; [reflexivity|].
  apply (proj1 (proj2 (proj2
           (connect_join_reads_storage
              (storageCleared (session (userRecord "u1") "tok")) []
              eq_refl)))).
  reflexivity.
Defined.

Lemma leaves_app (w1 w2 : list wireAction) :
  leaves (w1 ++ w2) = leaves w1 ++ leaves w2.
Proof. unfold leaves. apply omap_app. Qed.

Lemma leaves_disconnect (s : Service) :
  leaves (wire (disconnect s)) = leaves (wire s).
Proof.
  unfold disconnect. destruct (socket s); [|reflexivity]. simpl.
  rewrite leaves_app. apply app_nil_r.
Qed.

Lemma leaveRoom_without_socket (uid : jsval) (s : Service) :
  socket s = None -> leaveRoom uid s = s.
Proof. intros H. unfold leaveRoom. now rewrite H. Qed.

Lemma disconnect_without_socket (s : Service) :
  socket s = None -> disconnect s = s.
Proof. intros H. unfold disconnect. now rewrite H. Qed.

Lemma userCleanup_without_socket (u : jsval) (s : Service) :
  socket s = None -> userCleanup u s = s.
Proof.
  intros H. unfold userCleanup. destruct (truthy u); [|reflexivity].
  now apply leaveRoom_without_socket.
Qed.

(** C4 (what the code does). [logout()] calls [disconnect()] itself,
    before the re-render at which the [[user]] effect is cleaned up; when
    the cleanup then calls [leaveRoom] the service has no socket and
    nothing is emitted.  So a logout adds no 'leave' to the wire and ends
    with no socket; for a session of user "u1" the wire reads: socket
    opened, join "u1" (by the effect), join "u1" (by the 'connect'
    listener), socket disconnected. *)
Theorem logout_emits_no_leave (a : Auth) :
  leaves (wire (svc (rerender (logout a)))) = leaves (wire (svc a))
  /\ socket (svc (rerender (logout a))) = None
  /\ wire (svc (rerender (logout (session (userRecord "u1") "tok")))) =
       [Io; Emit "join" (VStr "u1"); Emit "join" (VStr "u1"); SockDisconnect].
Proof.
  assert (Hnone : socket (disconnect (svc a)) = None) by apply socket_disconnect.
  assert (Hsvc : svc (rerender (logout a)) = disconnect (svc a)).
  { unfold rerender, logout. cbn [user token storage svc queuedUser queuedToken
                                   default from_option id].
    destruct (negb (sameUser (user a) VNull) && _); [|reflexivity].
    rewrite userCleanup_without_socket by assumption.
    unfold userEffect. cbn [truthy].
    now apply disconnect_without_socket. }
  split; [|split].
  - rewrite Hsvc. apply leaves_disconnect.
  - now rewrite Hsvc.
  - vm_compute. reflexivity.
Qed.

(** The sibling path: when the record is replaced while the socket is up
    (profile update, user switch), the cleanup's 'leave' for the old id
    goes out on the live socket, before the join for the new one. *)
Lemma user_switch_leaves_old_room :
  wire (svc (rerender (updatedUser (userRecord "u2")
                         (session (userRecord "u1") "tok")))) =
    [Io; Emit "join" (VStr "u1"); Emit "join" (VStr "u1");
     Emit "leave" (VStr "u1"); Emit "join" (VStr "u2")].
Proof. vm_compute. reflexivity. Qed.

End SessionFacts.

(** ** The response interceptor *)

Section ApiFacts.
Import Api.

(** A failure that is not a timeout settles the request at once. *)
Lemma request_other_failure (config : Config) (e : AxiosError)
    (rest : list attempt) (env : Env) :
  isTimeoutError e = false ->
  sent (snd (request config (Fails e :: rest) env)) = S (sent env) /\
  exists err, fst (request config (Fails e :: rest) env) = Some (Rejected err).
Proof.
  intros Hnt. cbn [request]. rewrite Hnt.
  destruct (isNetworkErr e); [simpl; eauto|].
  destruct (response e) as [[status data]|]; [|simpl; eauto].
  destruct (status =? 401)%Z; simpl; eauto.
Qed.

(** A request already marked as retried is not retried again. *)
Lemma request_marked_timeout (u : string) (e : AxiosError)
    (rest : list attempt) (env : Env) :
  isTimeoutError e = true ->
  request {| url := u; __retryCount := Some 1%Z |} (Fails e :: rest) env =
    (Some (Rejected (VObj [("message", VStr timeoutMessage);
                           ("isTimeout", VBool true)])),
     {| store := store env; sent := S (sent env);
        redirected := redirected env |}).
Proof. intros Ht. cbn [request]. rewrite Ht. reflexivity. Qed.

(** C8. A request whose first attempt times out is sent once more, and
    only once more: two requests go on the wire however many answers the
    transport could still give.  If the second attempt times out too, the
    caller gets an error object whose [isTimeout] is [true]; if it is
    answered, the caller gets the answer.  A failure that is not a
    timeout is handed to the caller after the single attempt. *)
Theorem timeout_retried_exactly_once (config : Config) (e1 : AxiosError)
    (a2 : attempt) (rest : list attempt) (env : Env) :
  __retryCount config = None ->
  isTimeoutError e1 = true ->
  sent (snd (request config (Fails e1 :: a2 :: rest) env)) = S (S (sent env))
  /\ (forall e2, a2 = Fails e2 -> isTimeoutError e2 = true ->
        exists err,
          fst (request config (Fails e1 :: a2 :: rest) env) =
            Some (Rejected err) /\
          prop err "isTimeout" = Some (VBool true))
  /\ (forall d, a2 = Responds d ->
        fst (request config (Fails e1 :: a2 :: rest) env) = Some (Resolved d))
  /\ (forall cfg e, isTimeoutError e = false ->
        sent (snd (request cfg (Fails e :: rest) env)) = S (sent env) /\
        exists err,
          fst (request cfg (Fails e :: rest) env) = Some (Rejected err)).
Proof.
  intros Hfresh Ht1.
  assert (Estep : request config (Fails e1 :: a2 :: rest) env =
                  request {| url := url config; __retryCount := Some 1%Z |}
                    (a2 :: rest)
                    {| store := store env; sent := S (sent env);
                       redirected := redirected env |}).
  { cbn [request]. rewrite Ht1, Hfresh. reflexivity. }
  rewrite Estep. split; [|split; [|split]].
  - destruct a2 as [d|e2]; [reflexivity|].
    destruct (isTimeoutError e2) eqn:Ht2.
    + now rewrite request_marked_timeout.
    + now apply request_other_failure.
  - intros e2 -> Ht2. rewrite request_marked_timeout by assumption.
    eexists. split; reflexivity.
  - intros d ->. reflexivity.
  - intros cfg e. apply request_other_failure.
Qed.

Lemma timeout_retried_exactly_once_witness :
  sent (snd (request (freshConfig "/transactions/t1")
               [Fails timeoutError; Fails timeoutError; Responds VNull] env0))
  = 2
  /\ exists err,
       fst (request (freshConfig "/transactions/t1")
              [Fails timeoutError; Fails timeoutError; Responds VNull] env0)
       = Some (Rejected err)
       /\ prop err "isTimeout" = Some (VBool true).
Proof.
  destruct (timeout_retried_exactly_once
              (freshConfig "/transactions/t1") timeoutError
              (Fails timeoutError) [Responds VNull] env0
              eq_refl eq_refl) as (Hsent & Hrej & _).
  destruct (Hrej timeoutError eq_refl eq_refl) as (err & Hfst & Hflag).
  split; [exact Hsent|]. exists err. split; assumption.
Defined.

End ApiFacts.

(** ** The mounted transaction view *)

Section ViewFacts.
Import WebSocket View.

Lemma setSvc_same (w : World) : setSvc (View.svc w) w = w.
Proof. now destruct w. Qed.

Lemma run_cons (e : event) (tr : list event) (w : World) :
  run (e :: tr) w = run tr (step e w).
Proof. reflexivity. Qed.

(** A push for the displayed id, with the handler subscribed: the handler
    runs and issues a request, whatever is already in flight. *)
Lemma push_fetches (w : World) (r : nat) (c : Closure) :
  socketRegistry "transaction_update" (View.svc w) = [Fn r] ->
  closures w !! r = Some c ->
  step (Push (cl_id c)) w = fetchTransaction c (noteInvoked r w).
Proof.
  intros Hreg Hc. unfold step, Push, fire.
  unfold socketRegistry in Hreg.
  destruct (socket (View.svc w)) as [sock|] eqn:Hs; [|discriminate].
  rewrite Hreg. cbn [dispatch].
  destruct (decide ("transaction_update" = "connect")) as [E|_];
    [discriminate E|].
  destruct (decide ("transaction_update" = "disconnect")) as [E|_];
    [discriminate E|].
  rewrite setSvc_same. cbn [callAll]. unfold handleTransactionUpdate.
  rewrite Hc. cbn [prop assoc String.eqb Ascii.eqb Bool.eqb].
  destruct (decide (cl_id c = cl_id c)); [reflexivity | congruence].
Qed.

Lemma burst_fetches (n : nat) (w : World) (r : nat) (c : Closure) :
  socketRegistry "transaction_update" (View.svc w) = [Fn r] ->
  closures w !! r = Some c ->
  requests (run (replicate n (Push (cl_id c))) w) =
    requests w ++ replicate n (cl_id c)
  /\ inflight (run (replicate n (Push (cl_id c))) w) =
       inflight w ++ replicate n c.
Proof.
  revert w. induction n as [|n IH]; intros w Hreg Hc.
  - simpl. now rewrite !app_nil_r.
  - cbn [replicate]. rewrite run_cons, (push_fetches w r c) by assumption.
    destruct (IH (fetchTransaction c (noteInvoked r w)) Hreg Hc) as [Hr Hi].
    rewrite Hr, Hi. cbn [fetchTransaction noteInvoked requests inflight].
    now rewrite <- !app_assoc.
Qed.

(** C1 (as the code has it). While the view shows transaction [i_id m]
    with its handler subscribed, every 'transaction_update' naming that id
    issues one more [getTransaction] request at once; nothing waits for a
    request in flight and nothing is merged.  A burst of [n] such events
    adds [n] requests, all pending together with those already pending. *)
Theorem burst_starts_one_fetch_per_event (w : World) (m : Instance)
    (c : Closure) (n : nat) :
  mounted w = Some m ->
  socketRegistry "transaction_update" (View.svc w) = [Fn (i_cb m)] ->
  closures w !! i_cb m = Some c ->
  cl_id c = i_id m ->
  requests (run (replicate n (Push (i_id m))) w) =
    requests w ++ replicate n (i_id m)
  /\ inflight (run (replicate n (Push (i_id m))) w) =
       inflight w ++ replicate n c.
Proof.
  intros _ Hreg Hc <-. now apply (burst_fetches n w (i_cb m)).
Qed.

Lemma burst_starts_one_fetch_per_event_witness :
  requests (run (replicate 2 (Push "t1")) (viewing "t1")) = ["t1"; "t1"; "t1"]
  /\ length (inflight (run (replicate 2 (Push "t1")) (viewing "t1"))) = 3.
Proof.
  destruct (burst_starts_one_fetch_per_event (viewing "t1")
              {| i_inst := 0; i_id := "t1"; i_cb := 0 |}
              {| cl_inst := 0; cl_id := "t1" |} 2
              eq_refl eq_refl eq_refl eq_refl) as [Hr Hi].
  split.
  - exact Hr.
  - cbn [i_id] in Hi. rewrite Hi. reflexivity.
Defined.

(** C1 as stated fails: two events arriving while the initial fetch is in
    flight make three requests in all, and all three are pending at the
    same time. *)
Lemma burst_of_two_makes_three_fetches :
  length (requests (run [Push "t1"; Push "t1"] (viewing "t1"))) = 3
  /\ length (inflight (run [Push "t1"; Push "t1"] (viewing "t1"))) = 3
  /\ length (requests (run [Push "t1"; Push "t1"] (viewing "t1"))) <> 2.
Proof. vm_compute. repeat split; discriminate. Qed.

Lemma svc_handleTransactionUpdate r data (w w' : World) :
  handleTransactionUpdate r data w = Some w' ->
  View.svc w' = View.svc w /\ mounted w' = mounted w.
Proof.
  unfold handleTransactionUpdate. intros H.
  destruct (closures w !! r) as [c|]; [|injection H as <-; now split].
  destruct (prop data "transactionId") as [[| | | |tid|]|];
    try discriminate; try (injection H as <-; now split).
  destruct (decide (tid = cl_id c)); injection H as <-; now split.
Qed.

Lemma svc_callAll rs data (w : World) :
  View.svc (callAll rs data w) = View.svc w /\
  mounted (callAll rs data w) = mounted w.
Proof.
  revert w. induction rs as [|r rs IH]; intros w; cbn [callAll]; [now split|].
  destruct (handleTransactionUpdate r data w) as [w'|] eqn:E; [|now split].
  apply svc_handleTransactionUpdate in E as [E1 E2].
  destruct (IH w') as [I1 I2]. split; congruence.
Qed.

Lemma socketRegistry_on_fresh (e : string) (cb : callback) (s : Service) :
  socketRegistry e s = [] ->
  socketRegistry e (on e cb s) = [] \/ socketRegistry e (on e cb s) = [cb].
Proof.
  intros Hreg. destruct (socket s) as [sock|] eqn:Hs.
  - right. rewrite socketRegistry_on by eauto. now rewrite Hreg.
  - left. now rewrite on_without_socket.
Qed.

Lemma socketRegistry_off_own (e : string) (cb : callback) (s : Service) :
  socketRegistry e s = [] \/ socketRegistry e s = [cb] ->
  socketRegistry e (off e cb s) = [].
Proof.
  intros [H|H]; rewrite socketRegistry_off, H.
  - apply spliceOut_nil.
  - apply spliceOut_singleton.
Qed.

Lemma socketRegistry_connect_fresh (s : Service) :
  socketRegistry "transaction_update" s = [] ->
  socketRegistry "transaction_update" (connect s) = [].
Proof.
  intros H. unfold connect.
  destruct (match socket s with Some sock => connected sock | None => false end);
    [exact H | reflexivity].
Qed.

Lemma socketRegistry_disconnect (e : string) (s : Service) :
  socketRegistry e (disconnect s) = [].
Proof. unfold socketRegistry. now rewrite socket_disconnect. Qed.

Lemma subscribed_effect (inst : nat) (id : string) (w : World) :
  socketRegistry "transaction_update" (View.svc w) = [] ->
  subscribedOnlyWhileMounted (effect inst id w).
Proof.
  intros H. unfold subscribedOnlyWhileMounted, effect.
  cbn [mounted View.svc fetchTransaction i_cb].
  now apply socketRegistry_on_fresh.
Qed.

Lemma subscribed_step (e : event) (w : World) :
  subscribedOnlyWhileMounted w -> subscribedOnlyWhileMounted (step e w).
Proof.
  intros Inv. destruct e as [id|id| |name arg|i r| | |k name arg]; cbn [step].
  - destruct (mounted w) as [m|] eqn:Hm; [exact Inv|].
    unfold subscribedOnlyWhileMounted in Inv. rewrite Hm in Inv.
    apply (subscribed_effect (nextInst w) id) in Inv. exact Inv.
  - destruct (mounted w) as [m|] eqn:Hm; [|exact Inv].
    destruct (decide (i_id m = id)); [exact Inv|].
    apply subscribed_effect. unfold cleanup. cbn [View.svc setMounted setSvc].
    apply socketRegistry_off_own.
    unfold subscribedOnlyWhileMounted in Inv. now rewrite Hm in Inv.
  - destruct (mounted w) as [m|] eqn:Hm; [|exact Inv].
    unfold subscribedOnlyWhileMounted, cleanup.
    cbn [mounted View.svc setMounted setSvc].
    apply socketRegistry_off_own.
    unfold subscribedOnlyWhileMounted in Inv. now rewrite Hm in Inv.
  - pose proof (socketRegistry_fire (ls w) name arg "transaction_update"
                  (View.svc w)) as Hf.
    destruct (fire (ls w) name arg (View.svc w)) as [s rs]. cbn [fst] in Hf.
    destruct (svc_callAll rs arg (setSvc s w)) as [E1 E2].
    unfold subscribedOnlyWhileMounted in *. rewrite E1, E2.
    cbn [View.svc mounted setSvc]. now rewrite Hf.
  - destruct (inflight w !! i); exact Inv.
  - unfold subscribedOnlyWhileMounted in *.
    cbn [mounted View.svc setSvc setReplaced].
    destruct (mounted w) as [m|].
    + destruct Inv as [H|H].
      * left. now apply socketRegistry_connect_fresh.
      * unfold connect.
        destruct (match socket (View.svc w) with
                  | Some sock => connected sock | None => false end);
          [now right | now left].
    + now apply socketRegistry_connect_fresh.
  - unfold subscribedOnlyWhileMounted. cbn [mounted View.svc setSvc].
    destruct (mounted w); [left|]; apply socketRegistry_disconnect.
  - destruct (replaced w !! k) as [sock|]; [|exact Inv].
    pose proof (socketRegistry_dispatch (ls w) arg "transaction_update"
                  (default [] (handlers sock !! name)) (View.svc w)) as Hf.
    unfold fireDetached.
    destruct (dispatch (ls w) arg (default [] (handlers sock !! name))
                (View.svc w)) as [s rs].
    cbn [fst] in Hf.
    match goal with
    | |- context [callAll rs arg ?w1] =>
        destruct (svc_callAll rs arg w1) as [E1 E2]
    end.
    unfold subscribedOnlyWhileMounted in *. rewrite E1, E2.
    cbn [View.svc mounted setSvc setReplaced]. now rewrite Hf.
Qed.

Lemma subscribed_run (tr : list event) (w : World) :
  subscribedOnlyWhileMounted w -> subscribedOnlyWhileMounted (run tr w).
Proof.
  revert w. induction tr as [|e tr IH]; intros w Inv; [exact Inv|].
  rewrite run_cons. apply IH. now apply subscribed_step.
Qed.

Lemma subscribed_world0 : subscribedOnlyWhileMounted world0.
Proof. reflexivity. Qed.

(** An event for which the socket holds no callback changes nothing. *)
Lemma step_unsubscribed (tid : string) (w : World) :
  socketRegistry "transaction_update" (View.svc w) = [] ->
  step (Push tid) w = w.
Proof.
  intros Hreg. unfold step, Push, fire. unfold socketRegistry in Hreg.
  destruct (socket (View.svc w)) as [sock|] eqn:Hs.
  - rewrite Hreg. cbn [dispatch].
    destruct (decide ("transaction_update" = "connect")) as [E|_];
      [discriminate E|].
    destruct (decide ("transaction_update" = "disconnect")) as [E|_];
      [discriminate E|].
    cbn [callAll]. apply setSvc_same.
  - cbn [callAll]. apply setSvc_same.
Qed.

(** C5 (as the code has it). In every state the component can reach, once
    it is unmounted: a push event delivered on the socket the service
    holds, for whatever transaction id, changes nothing (no handler runs,
    no request is issued, no setter is called); a request that was pending
    does settle, and its continuation then calls [setTransaction] with the
    fetched record (or [toast.error] when the request failed) and
    [setLoading(false)] on the unmounted instance: nothing in the
    component drops the result.  The states reached include those in which
    [connect()] has replaced sockets and those sockets have fired events;
    what a push delivered on such a socket does is not part of this
    statement. *)
Theorem after_unmount (tr : list event) :
  mounted (run tr world0) = None ->
  (forall tid, step (Push tid) (run tr world0) = run tr world0)
  /\ (forall i c r, inflight (run tr world0) !! i = Some c ->
        calls (step (Settle i r) (run tr world0)) =
          calls (run tr world0) ++
          match r with
          | Some t => [(cl_inst c, SetTransaction t)]
          | None => [(cl_inst c, ToastError "Failed to load transaction")]
          end ++ [(cl_inst c, SetLoading false)]).
Proof.
  intros Hm. split.
  - intros tid. apply step_unsubscribed.
    pose proof (subscribed_run tr world0 subscribed_world0) as Inv.
    unfold subscribedOnlyWhileMounted in Inv. now rewrite Hm in Inv.
  - intros i c r Hi. cbn [step]. rewrite Hi. reflexivity.
Qed.

Lemma after_unmount_witness :
  mounted (run [SvcConnect; Mount "t1"; Unmount] world0) = None
  /\ step (Push "t1") (run [SvcConnect; Mount "t1"; Unmount] world0) =
       run [SvcConnect; Mount "t1"; Unmount] world0
  /\ calls (step (Settle 0 (Some Steps.tx0))
              (run [SvcConnect; Mount "t1"; Unmount] world0)) =
       [(0, SetTransaction Steps.tx0); (0, SetLoading false)].
Proof.
  destruct (after_unmount [SvcConnect; Mount "t1"; Unmount] eq_refl)
    as [Hpush Hsettle].
  split; [reflexivity|]. split.
  - apply Hpush.
  - apply (Hsettle 0 {| cl_inst := 0; cl_id := "t1" |} (Some Steps.tx0)).
    reflexivity.
Defined.

(** C5 as stated fails: the view is shown, unmounted while its fetch is
    pending, and the fetch then resolves; setters are called after the
    unmount. *)
Lemma unmounted_fetch_still_updates :
  ~ (forall tr e, mounted (run tr world0) = None ->
       calls (step e (run tr world0)) = calls (run tr world0)).
Proof.
  intros H.
  specialize (H [SvcConnect; Mount "t1"; Unmount]
                (Settle 0 (Some Steps.tx0)) eq_refl).
  vm_compute in H. discriminate H.
Qed.

End ViewFacts.

(* ===================================================================== *)
(** * Further properties of the modelled code                             *)
(* ===================================================================== *)

(** ** Step derivation outside the ordered statuses *)

Section StepEdgeFacts.
Import Steps Progress.

Lemma indexOf_from_lower {A} `{EqDecision A} (i : Z) (l : list A) (x : A) :
  (0 <= i)%Z -> (-1 <= indexOf_from i l x)%Z.
Proof.
  revert i. induction l as [|y l IH]; intros i Hi; simpl; [lia|].
  destruct (decide (y = x)); [lia|]. apply IH. lia.
Qed.



(** X2. A step key that is missing from [statusOrder] has index [-1], which
    every status index reaches: such a step is shown 'completed' for every
    status but 'failed', and 'failed' when the status is 'failed'. *)
Theorem unordered_step_always_reached (t : Transaction) (step : string) :
  step ∉ statusOrder ->
  getStepStatus (Some t) step =
    if String.eqb (status t) "failed" then "failed" else "completed".
Proof.
  intros Hs. unfold getStepStatus, indexOf.
  rewrite (indexOf_from_absent 0 statusOrder step Hs).
  pose proof (indexOf_from_lower 0 statusOrder (status t) ltac:(lia)) as Hlo.
  replace (indexOf_from 0 statusOrder (status t) >=? -1)%Z with true
    by (symmetry; apply Z.geb_le; lia).
  reflexivity.
Qed.

Lemma unordered_step_always_reached_witness :
  getStepStatus (Some (withStatus "pending" tx0)) "refund_issued" = "completed".
Proof.
  apply (unordered_step_always_reached (withStatus "pending" tx0)
           "refund_issued").
  unfold statusOrder. intros H.
  repeat (apply elem_of_cons in H as [H|H]; [discriminate H|]).
  now apply elem_of_nil in H.
Defined.

(** X3. The step display never moves backwards: when the status advances in
    the order, no step goes from 'completed' to 'active' or 'pending', nor
    from 'active' to 'pending'. *)
Theorem steps_never_regress (t : Transaction) (s1 s2 step : string) :
  In s1 statusOrder -> In s2 statusOrder -> In step steps ->
  (order s1 <= order s2)%Z ->
  rank (getStepStatus (Some (withStatus s1 t)) step) <=
  rank (getStepStatus (Some (withStatus s2 t)) step).
Proof.
  intros H1 H2 H3 Hle. unfold statusOrder, steps in *. simpl in H1, H2, H3.
  repeat (destruct H1 as [<-|H1]; [|]); try (destruct H1);
  repeat (destruct H2 as [<-|H2]; [|]); try (destruct H2);
  repeat (destruct H3 as [<-|H3]; [|]); try (destruct H3);
  first [ exfalso; vm_compute in Hle; now apply Hle | vm_compute; lia ].
Qed.

Lemma steps_never_regress_witness :
  rank (getStepStatus (Some (withStatus "payment_confirmed" tx0))
          "converting_to_usdt") <=
  rank (getStepStatus (Some (withStatus "usdt_sent" tx0)) "converting_to_usdt").
Proof.
  apply (steps_never_regress tx0 "payment_confirmed" "usdt_sent"
           "converting_to_usdt").
  - simpl. tauto.
  - simpl. tauto.
  - simpl. tauto.
  - vm_compute. discriminate.
Defined.

End StepEdgeFacts.

(** ** Formatters *)

Section FormatterFacts.
Import Formatters.

Lemma length_append (a b : string) :
  String.length (String.append a b) = String.length a + String.length b.
Proof.
  induction a as [|c a IH]; [reflexivity|].
  change (String.append (String c a) b) with (String c (String.append a b)).
  cbn [String.length]. now rewrite IH.
Qed.

Lemma length_substring (n m : nat) (s : string) :
  n + m <= String.length s -> String.length (String.substring n m s) = m.
Proof.
  revert n m. induction s as [|c s IH]; intros n m H; cbn in H.
  - assert (n = 0) by lia. assert (m = 0) by lia. subst. reflexivity.
  - destruct n as [|n]; cbn.
    + destruct m as [|m]; cbn; [reflexivity|].
      rewrite (IH 0 m) by lia. reflexivity.
    + apply IH. lia.
Qed.

Lemma substring_all (s : string) :
  String.substring 0 (String.length s) s = s.
Proof. induction s as [|c s IH]; cbn; [reflexivity | now rewrite IH]. Qed.

Lemma eqb_empty_length (a : string) :
  String.eqb a "" = true -> String.length a = 0.
Proof. intros H. apply String.eqb_eq in H. now subst. Qed.

(** X4. [truncateAddress] with a positive tail length: an address of at most
    [start + stop] characters comes back as it is; a longer one becomes
    its first [start] characters, three dots, and its last [stop]
    characters, [start + 3 + stop] characters in all (which is longer than
    the address itself when that has [start + stop + 1] or [+ 2]
    characters). *)
Theorem truncateAddress_shape (a : string) (start stop : Z) :
  (0 <= start)%Z -> (0 < stop)%Z ->
  ((Z.of_nat (String.length a) <= start + stop)%Z ->
     truncateAddress (Some a) start stop = a)
  /\ ((start + stop < Z.of_nat (String.length a))%Z ->
        truncateAddress (Some a) start stop =
          String.append (String.substring 0 (Z.to_nat start) a)
            (String.append "..."
               (String.substring (String.length a - Z.to_nat stop)
                  (Z.to_nat stop) a))
        /\ Z.of_nat (String.length (truncateAddress (Some a) start stop)) =
             (start + 3 + stop)%Z).
Proof.
  intros Hstart Hstop. split.
  - intros Hshort. unfold truncateAddress.
    destruct (String.eqb a "") eqn:E; [apply String.eqb_eq in E; now subst|].
    replace (Z.of_nat (String.length a) <=? start + stop)%Z with true
      by (symmetry; apply Z.leb_le; lia).
    reflexivity.
  - intros Hlong.
    assert (E : truncateAddress (Some a) start stop =
                String.append (String.substring 0 (Z.to_nat start) a)
                  (String.append "..."
                     (String.substring (String.length a - Z.to_nat stop)
                        (Z.to_nat stop) a))).
    { unfold truncateAddress.
      destruct (String.eqb a "") eqn:E;
        [apply eqb_empty_length in E; lia|].
      replace (Z.of_nat (String.length a) <=? start + stop)%Z with false
        by (symmetry; apply Z.leb_gt; lia).
      unfold sliceFrom, slice, sliceIndex.
      replace (0 <? 0)%Z with false by reflexivity.
      replace (start <? 0)%Z with false by (symmetry; apply Z.ltb_ge; lia).
      replace (- stop <? 0)%Z with true by (symmetry; apply Z.ltb_lt; lia).
      replace (Z.of_nat (String.length a) <? 0)%Z with false
        by (symmetry; apply Z.ltb_ge; lia).
      f_equal.
      - f_equal; lia.
      - f_equal. f_equal; lia. }
    split; [exact E|]. rewrite E.
    rewrite !length_append, !length_substring by lia.
    cbn [String.length]. lia.
Qed.

Lemma truncateAddress_shape_witness :
  truncateAddress (Some "TXYZ1234567890ABCD") 6 4 = "TXYZ12...ABCD"
  /\ truncateAddress (Some "TXYZ123456") 6 4 = "TXYZ123456".
Proof.
  destruct (truncateAddress_shape "TXYZ1234567890ABCD" 6 4
              ltac:(lia) ltac:(lia)) as [_ Hlong].
  destruct (truncateAddress_shape "TXYZ123456" 6 4
              ltac:(lia) ltac:(lia)) as [Hshort _].
  split.
  - rewrite (proj1 (Hlong ltac:(cbn; lia))). reflexivity.
  - apply Hshort. cbn. lia.
Defined.

(** X5. [truncateAddress] with tail length [0]: [slice(-0)] is [slice(0)], the
    whole text, so a long address comes back longer, as its first [start]
    characters, three dots, and then the whole address.  A missing or
    empty address gives the empty text. *)
Theorem truncateAddress_zero_tail (a : string) (start : Z) :
  (0 <= start)%Z ->
  (start < Z.of_nat (String.length a))%Z ->
  truncateAddress (Some a) start 0 =
    String.append (String.substring 0 (Z.to_nat start) a)
      (String.append "..." a)
  /\ truncateAddress None start 0 = ""
  /\ truncateAddress (Some "") start 0 = "".
Proof.
  intros Hstart Hlong. split; [|split; reflexivity].
  unfold truncateAddress.
  destruct (String.eqb a "") eqn:E; [apply eqb_empty_length in E; lia|].
  replace (Z.of_nat (String.length a) <=? start + 0)%Z with false
    by (symmetry; apply Z.leb_gt; lia).
  unfold sliceFrom, slice, sliceIndex.
  replace (- 0 <? 0)%Z with false by reflexivity.
  replace (0 <? 0)%Z with false by reflexivity.
  replace (start <? 0)%Z with false by (symmetry; apply Z.ltb_ge; lia).
  replace (Z.of_nat (String.length a) <? 0)%Z with false
    by (symmetry; apply Z.ltb_ge; lia).
  f_equal.
  - f_equal; lia.
  - f_equal.
    replace (Z.to_nat (Z.min (- 0) (Z.of_nat (String.length a)))) with 0 by lia.
    replace (Z.to_nat (Z.min (Z.of_nat (String.length a))
                         (Z.of_nat (String.length a)) -
                       Z.min (- 0) (Z.of_nat (String.length a))))
      with (String.length a) by lia.
    apply substring_all.
Qed.

Lemma truncateAddress_zero_tail_witness :
  truncateAddress (Some "0xABCDEF12") 4 0 = "0xAB...0xABCDEF12".
Proof.
  rewrite (proj1 (truncateAddress_zero_tail "0xABCDEF12" 4
                    ltac:(lia) ltac:(cbn; lia))).
  reflexivity.
Defined.

Lemma ownProperty_absent (k : string) (o : list (string * string)) :
  k ∉ map fst o -> ownProperty k o = None.
Proof.
  induction o as [|[k' v] o IH]; intros H; cbn; [reflexivity|].
  cbn in H. apply not_elem_of_cons in H as [Hne Ho].
  destruct (String.eqb k' k) eqn:E;
    [apply String.eqb_eq in E; congruence | now apply IH].
Qed.

(** X6. Every status of the progress order, and 'failed', has its own label
    and its own colour class in the formatter tables: none of them falls
    back.  A status that is in neither table (and is not the name of a
    member of [Object.prototype]) is labelled by its own text and gets the
    grey class. *)
Theorem status_tables_cover_order (s : string) :
  (In s (Steps.statusOrder ++ ["failed"]) ->
     (exists t, getStatusText s = Some t /\ t <> s) /\
     (exists c, getStatusColor s = Some c /\ c <> "bg-gray-100 text-gray-800"))
  /\ (s ∉ map fst texts -> s ∉ objectPrototypeNames ->
        getStatusText s = Some s /\
        getStatusColor s = Some "bg-gray-100 text-gray-800").
Proof.
  split.
  - intros H. unfold Steps.statusOrder in H. simpl in H.
    repeat (destruct H as [<-|H];
            [split; eexists; (split; [vm_compute; reflexivity | discriminate])|]).
    destruct H.
  - intros Ht Hp. unfold getStatusText, getStatusColor, lookupOr.
    rewrite (ownProperty_absent s texts Ht).
    rewrite (ownProperty_absent s colors) by exact Ht.
    rewrite bool_decide_eq_false_2 by assumption. split; reflexivity.
Qed.

Lemma status_tables_cover_order_witness :
  getStatusText "usdt_sent" = Some "USDT Sent"
  /\ getStatusText "refunded" = Some "refunded".
Proof.
  split.
  - destruct (proj1 (proj1 (status_tables_cover_order "usdt_sent")
                       ltac:(simpl; tauto))) as (t & Ht & _).
    rewrite Ht. vm_compute in Ht. symmetry. exact Ht.
  - apply (proj2 (status_tables_cover_order "refunded")).
    + cbn. intros H.
      repeat (apply elem_of_cons in H as [H|H]; [discriminate H|]).
      now apply elem_of_nil in H.
    + unfold objectPrototypeNames. intros H.
      repeat (apply elem_of_cons in H as [H|H]; [discriminate H|]).
      now apply elem_of_nil in H.
Defined.

End FormatterFacts.

(** ** The channel manager under sequences of calls *)

Section ServiceFacts.
Import WebSocket ServiceOps.

Ltac on_socket s :=
  let H := fresh "Hs" in
  destruct (socket s) eqn:H; cbn; rewrite ?H; try reflexivity.

Lemma spliceOut_app_absent {A} `{EqDecision A} (x : A) (l1 l2 : list A) :
  x ∉ l1 -> spliceOut x (l1 ++ l2) = l1 ++ spliceOut x l2.
Proof.
  intros H1. destruct (decide (x ∈ l2)) as [H2|H2].
  - apply list_elem_of_split_l in H2 as (a & b & -> & Ha).
    rewrite (spliceOut_first x a b Ha).
    rewrite app_assoc, spliceOut_first, app_assoc; [reflexivity|].
    intros Hin. apply elem_of_app in Hin as [?|?]; contradiction.
  - rewrite (spliceOut_absent x l2 H2). apply spliceOut_absent.
    intros Hin. apply elem_of_app in Hin as [?|?]; contradiction.
Qed.

Lemma held_on e cb (s : Service) : held (on e cb s) = held s.
Proof. unfold held, on. on_socket s. Qed.

Lemma held_off e cb (s : Service) : held (off e cb s) = held s.
Proof. unfold held, off. on_socket s. Qed.

Lemma socketRegistry_on_other (event e' : string) (cb : callback) (s : Service) :
  e' <> event -> socketRegistry e' (on event cb s) = socketRegistry e' s.
Proof.
  intros Hne. unfold socketRegistry, on.
  destruct (socket s) as [sock|] eqn:Hs; cbn; [|now rewrite Hs].
  now rewrite lookup_insert_ne by congruence.
Qed.

Lemma socketRegistry_off_other (event e' : string) (cb : callback) (s : Service) :
  e' <> event -> socketRegistry e' (off event cb s) = socketRegistry e' s.
Proof.
  intros Hne. unfold socketRegistry, off.
  destruct (socket s) as [sock|] eqn:Hs; cbn; [|now rewrite Hs].
  unfold emitterOff. destruct (handlers sock !! event) as [l|]; [|reflexivity].
  cbn. destruct (spliceOut cb l).
  - now rewrite lookup_delete_ne by congruence.
  - now rewrite lookup_insert_ne by congruence.
Qed.

Lemma internals_shape (event : string) :
  internals event = [] \/ exists h, internals event = [Internal h].
Proof.
  unfold internals. destruct (handlers newSocket !! event) as [cbs|] eqn:E.
  - right. apply newSocket_internal_only in E as [h ->]. now exists h.
  - now left.
Qed.

Lemma fn_not_internal (event : string) (r : nat) : Fn r ∉ internals event.
Proof.
  destruct (internals_shape event) as [->|[h ->]].
  - apply not_elem_of_nil.
  - intros H. apply list_elem_of_singleton in H. discriminate H.
Qed.

(** X7. While the service keeps one socket, subscribing and unsubscribing
    callers' functions keeps the socket and the [listeners] Map in step:
    for every event the socket holds [connect()]'s own listeners followed
    by exactly the Map's array. *)
Theorem subscriptions_agree (os : list subOp) (s : Service) :
  is_Some (socket s) ->
  (forall e, socketRegistry e s = internals e ++ registry e s) ->
  forall e, socketRegistry e (runSubs os s) =
            internals e ++ registry e (runSubs os s).
Proof.
  revert s. induction os as [|o os IH]; intros s Hs Hagree; [exact Hagree|].
  change (runSubs (o :: os) s) with (runSubs os (applySub o s)).
  apply IH.
  - destruct Hs as [sock Hs]. destruct o; cbn; unfold on, off; rewrite Hs; eauto.
  - intros e. destruct o as [e0 r|e0 r]; cbn.
    + destruct (decide (e = e0)) as [->|Hne].
      * rewrite socketRegistry_on, registry_on by assumption.
        now rewrite Hagree, app_assoc.
      * now rewrite socketRegistry_on_other, registry_on_other.
    + destruct (decide (e = e0)) as [->|Hne].
      * rewrite socketRegistry_off, registry_off by assumption.
        rewrite Hagree. apply spliceOut_app_absent, fn_not_internal.
      * now rewrite socketRegistry_off_other, registry_off_other.
Qed.

Lemma subscriptions_agree_witness :
  socketRegistry "connect"
    (runSubs [SubOn "connect" 3; SubOn "transaction_update" 0;
              SubOff "connect" 3; SubOn "connect" 4] (connect init))
  = internals "connect" ++
    registry "connect"
      (runSubs [SubOn "connect" 3; SubOn "transaction_update" 0;
                SubOff "connect" 3; SubOn "connect" 4] (connect init)).
Proof.
  apply (subscriptions_agree _ (connect init)).
  - cbn. eauto.
  - intros e. unfold registry, socketRegistry, internals. cbn.
    rewrite lookup_empty. cbn. now rewrite app_nil_r.
Defined.

(** X8. Without a socket every method but [connect] returns at once, and no
    event is dispatched: any sequence of calls that does not contain
    [connect()] leaves a socket-less service exactly as it was. *)
Theorem inert_without_socket (os : list op) (s : Service) :
  socket s = None ->
  Forall (fun o => o <> OpConnect) os ->
  runOps os s = s.
Proof.
  intros Hs Hos. induction Hos as [|o os Ho _ IH]; [reflexivity|].
  change (runOps (o :: os) s) with (runOps os (applyOp o s)).
  assert (E : applyOp o s = s).
  { destruct o; cbn;
      unfold disconnect, joinRoom, leaveRoom, on, off, removeAllListeners, fire;
      rewrite ?Hs; try reflexivity. congruence. }
  now rewrite E.
Qed.

Lemma inert_without_socket_witness :
  runOps [OpOn "transaction_update" (Fn 0); OpJoinRoom (VStr "u1");
          OpFire ∅ "connect" VUndef; OpLeaveRoom (VStr "u1"); OpDisconnect]
         init = init.
Proof.
  apply inert_without_socket; [reflexivity|].
  repeat (constructor; [discriminate|]). constructor.
Defined.

(** X9. [disconnect()] is idempotent, and whatever was subscribed before it is
    not delivered after a [connect()] that follows: the new socket has
    only [connect()]'s own listeners, while the [listeners] Map still
    lists the old callbacks. *)
Theorem reconnect_loses_subscriptions (s : Service) (e : string) :
  disconnect (disconnect s) = disconnect s
  /\ registry e (connect (disconnect s)) = registry e s
  /\ socketRegistry e (connect (disconnect s)) = internals e
  /\ (forall ls arg, snd (fire ls e arg (connect (disconnect s))) = []).
Proof.
  pose proof (socket_disconnect s) as Hd.
  assert (Hc : socket (connect (disconnect s)) = Some newSocket)
    by (unfold connect; now rewrite Hd).
  split; [|split; [|split]].
  - unfold disconnect at 1. now rewrite Hd.
  - unfold registry, connect. rewrite Hd. cbn.
    unfold disconnect. now destruct (socket s).
  - unfold socketRegistry. now rewrite Hc.
  - intros ls arg. apply (fire_internal_only _ _ _ _ newSocket Hc).
    apply newSocket_internal_only.
Qed.

(** X10. [connect()] called again before the transport has connected opens a
    second socket ([io()] once more, the first socket is not
    disconnected): a callback subscribed on the first socket is not on the
    new one, though the Map keeps it. *)
Theorem connect_before_connected_replaces_socket (s : Service) (e : string)
    (cb : callback) :
  is_Some (socket s) ->
  socketConnected s = false ->
  registry e (connect (on e cb s)) = registry e s ++ [cb]
  /\ socketRegistry e (connect (on e cb s)) = internals e
  /\ wire (connect (on e cb s)) = wire s ++ [Io].
Proof.
  intros [sock Hs] Hc. unfold socketConnected in Hc. rewrite Hs in Hc.
  assert (Hon : socket (on e cb s) = Some (emitterOn e cb sock))
    by (unfold on; now rewrite Hs).
  assert (E : connect (on e cb s) =
              {| socket := Some newSocket; listeners := listeners (on e cb s);
                 wire := wire (on e cb s) ++ [Io] |}).
  { unfold connect. rewrite Hon. cbn [connected emitterOn]. now rewrite Hc. }
  rewrite E. split; [|split].
  - change (registry e (on e cb s) = registry e s ++ [cb]).
    apply registry_on. eauto.
  - reflexivity.
  - cbn [wire]. unfold on. now rewrite Hs.
Qed.

Lemma connect_before_connected_replaces_socket_witness :
  socketRegistry "transaction_update"
    (connect (on "transaction_update" (Fn 0) (connect init))) = []
  /\ registry "transaction_update"
       (connect (on "transaction_update" (Fn 0) (connect init))) = [Fn 0]
  /\ wire (connect (on "transaction_update" (Fn 0) (connect init))) = [Io; Io].
Proof.
  destruct (connect_before_connected_replaces_socket (connect init)
              "transaction_update" (Fn 0)
              ltac:(cbn; eauto) eq_refl) as (H1 & H2 & H3).
  split; [exact H2|]. split; [exact H1 | exact H3].
Defined.

End ServiceFacts.

(** ** Transport events and the wire *)

Section WireFacts.
Import WebSocket ServiceOps.

Lemma opens_app (w1 w2 : list wireAction) : opens (w1 ++ w2) = opens w1 + opens w2.
Proof. unfold opens. now rewrite List.filter_app, length_app. Qed.

Lemma closes_app (w1 w2 : list wireAction) :
  closes (w1 ++ w2) = closes w1 + closes w2.
Proof. unfold closes. now rewrite List.filter_app, length_app. Qed.

Lemma socket_joinRoom uid (s : Service) : socket (joinRoom uid s) = socket s.
Proof. unfold joinRoom. destruct (socket s) eqn:E; [exact E | exact E]. Qed.

Lemma socket_runInternal ls h arg (s s' : Service) :
  runInternal ls h arg s = Some s' -> socket s' = socket s.
Proof.
  destruct h; cbn; intros H; try (injection H as <-; reflexivity).
  - destruct (parseItemOr "user" (VObj []) ls) as [u|]; cbn in H; [|discriminate].
    destruct (prop u "_id") as [uid|]; cbn in H; [|discriminate].
    injection H as <-. destruct (truthy uid); [apply socket_joinRoom|reflexivity].
  - destruct arg; try (injection H as <-; reflexivity).
    destruct (decide _); [|injection H as <-; reflexivity].
    destruct (socket s) eqn:Hs; [injection H as <-; exact Hs | discriminate].
  - destruct (prop arg "message"); [injection H as <-; reflexivity | discriminate].
Qed.

(** What a listener of [connect()] may add to the wire: an emit or a
    [socket.connect()], never a new socket and never a disconnect. *)
Lemma counts_runInternal ls h arg (s s' : Service) :
  runInternal ls h arg s = Some s' ->
  opens (wire s') = opens (wire s) /\ closes (wire s') = closes (wire s).
Proof.
  destruct h; cbn; intros H; try (injection H as <-; now split).
  - destruct (parseItemOr "user" (VObj []) ls) as [u|]; cbn in H; [|discriminate].
    destruct (prop u "_id") as [uid|]; cbn in H; [|discriminate].
    injection H as <-. destruct (truthy uid); [|now split].
    unfold joinRoom. destruct (socket s); [|now split].
    unfold logWire. cbn [wire]. rewrite opens_app, closes_app. cbn. lia.
  - destruct arg; try (injection H as <-; now split).
    destruct (decide _); [|injection H as <-; now split].
    destruct (socket s); [injection H as <-|discriminate].
    unfold logWire. cbn [wire]. rewrite opens_app, closes_app. cbn. lia.
  - destruct (prop arg "message"); [injection H as <-; now split | discriminate].
Qed.

Lemma socket_dispatch ls arg (cbs : list callback) (s : Service) :
  socket (fst (dispatch ls arg cbs s)) = socket s.
Proof.
  revert s. induction cbs as [|[h|r] cbs IH]; intros s; cbn; [reflexivity| |].
  - destruct (runInternal ls h arg s) as [s'|] eqn:E; [|reflexivity].
    rewrite IH. eapply socket_runInternal; eassumption.
  - specialize (IH s). now destruct (dispatch ls arg cbs s).
Qed.

Lemma counts_dispatch ls arg (cbs : list callback) (s : Service) :
  opens (wire (fst (dispatch ls arg cbs s))) = opens (wire s) /\
  closes (wire (fst (dispatch ls arg cbs s))) = closes (wire s).
Proof.
  revert s. induction cbs as [|[h|r] cbs IH]; intros s; cbn; [now split| |].
  - destruct (runInternal ls h arg s) as [s'|] eqn:E; [|now split].
    apply counts_runInternal in E as [E1 E2].
    destruct (IH s') as [I1 I2]. split; congruence.
  - specialize (IH s). now destruct (dispatch ls arg cbs s).
Qed.

Lemma held_setConnected b (s : Service) : held (setConnected b s) = held s.
Proof.
  unfold held, setConnected. destruct (socket s) eqn:E; cbn; now rewrite ?E.
Qed.

Lemma fire_lifecycle ls e arg (s : Service) :
  held (fst (fire ls e arg s)) = held s /\
  opens (wire (fst (fire ls e arg s))) = opens (wire s) /\
  closes (wire (fst (fire ls e arg s))) = closes (wire s).
Proof.
  unfold fire. destruct (socket s) as [sock|] eqn:Hs; [|now repeat split].
  set (s1 := if decide (e = "connect") then setConnected true s
             else if decide (e = "disconnect") then setConnected false s
             else s).
  assert (H1 : held s1 = held s /\ wire s1 = wire s).
  { subst s1. repeat destruct (decide _);
      rewrite ?held_setConnected, ?wire_setConnected; now split. }
  destruct H1 as [Hh Hw].
  destruct (counts_dispatch ls arg (default [] (handlers sock !! e)) s1)
    as [C1 C2].
  split; [|split].
  - unfold held. rewrite socket_dispatch. exact Hh.
  - now rewrite C1, Hw.
  - now rewrite C2, Hw.
Qed.

(** X11. Over any sequence of calls and transport events on a new service: a
    socket is disconnected at most once per socket opened (and fewer
    times than that while one is held), and nothing is put on the wire
    before the first socket is opened. *)
Theorem wire_lifecycle (os : list op) :
  closes (wire (runOps os init)) + held (runOps os init)
    <= opens (wire (runOps os init))
  /\ (opens (wire (runOps os init)) = 0 -> wire (runOps os init) = []).
Proof.
  assert (G : forall s,
             closes (wire s) + held s <= opens (wire s) /\
             (opens (wire s) = 0 -> wire s = []) ->
             closes (wire (runOps os s)) + held (runOps os s)
               <= opens (wire (runOps os s)) /\
             (opens (wire (runOps os s)) = 0 -> wire (runOps os s) = [])).
  { induction os as [|o os IH]; intros s Inv; [exact Inv|].
    change (runOps (o :: os) s) with (runOps os (applyOp o s)).
    apply IH. destruct Inv as [I1 I2].
    destruct o as [| |u|u|e cb|e cb|e|ls e arg]; cbn [applyOp].
    - unfold connect.
      destruct (match socket s with Some sock => connected sock | None => false end);
        [now split|].
      cbn [wire]. unfold held at 1. cbn [socket].
      rewrite opens_app, closes_app. cbn. unfold held in I1. split; [|lia].
      destruct (socket s); lia.
    - unfold disconnect, held in *. destruct (socket s) eqn:Hs; cbn [wire socket].
      + rewrite opens_app, closes_app. cbn. split; lia.
      + rewrite Hs. now split.
    - unfold joinRoom, held in *. destruct (socket s) eqn:Hs; cbn [wire socket logWire].
      + rewrite Hs, opens_app, closes_app. cbn. split; lia.
      + rewrite Hs. now split.
    - unfold leaveRoom, held in *. destruct (socket s) eqn:Hs; cbn [wire socket logWire].
      + rewrite Hs, opens_app, closes_app. cbn. split; lia.
      + rewrite Hs. now split.
    - rewrite held_on. unfold on. destruct (socket s); now split.
    - rewrite held_off. unfold off. destruct (socket s); now split.
    - unfold removeAllListeners, held in *.
      destruct (socket s) eqn:Hs; cbn [wire socket]; [|rewrite Hs]; now split.
    - destruct (fire_lifecycle ls e arg s) as (F1 & F2 & F3).
      rewrite F1, F2, F3. split; [exact I1|].
      intros H0. unfold fire. unfold held in I1.
      destruct (socket s) eqn:Hs; [lia|]. cbn. now apply I2. }
  apply G. cbn. split; [lia | reflexivity].
Qed.

Lemma wire_lifecycle_witness :
  wire (runOps [OpJoinRoom (VStr "u1"); OpOn "transaction_update" (Fn 0);
                OpDisconnect] init) = [].
Proof.
  apply (proj2 (wire_lifecycle [OpJoinRoom (VStr "u1");
                                OpOn "transaction_update" (Fn 0);
                                OpDisconnect])).
  reflexivity.
Defined.

Lemma dispatch_fns_after ls arg (h : internal) (rs : list nat) (s s' : Service) :
  runInternal ls h arg s = Some s' ->
  dispatch ls arg (Internal h :: map Fn rs) s = (s', rs).
Proof. intros H. cbn [dispatch]. rewrite H. apply dispatch_fns. Qed.

(** X12. Once the transport has announced 'connect', [connect()] does nothing:
    no further socket is opened and the subscriptions stay. *)
Theorem connect_after_connected_is_noop ls arg (s : Service) :
  is_Some (socket s) ->
  connect (fst (fire ls "connect" arg s)) = fst (fire ls "connect" arg s).
Proof.
  intros [sock Hs].
  assert (Hc : socketConnected (fst (fire ls "connect" arg s)) = true).
  { unfold socketConnected, fire. rewrite Hs.
    destruct (decide ("connect" = "connect")) as [_|N]; [|congruence].
    rewrite socket_dispatch. unfold setConnected. now rewrite Hs. }
  unfold connect. unfold socketConnected in Hc. now rewrite Hc.
Qed.

Lemma connect_after_connected_is_noop_witness :
  wire (connect (fst (fire ∅ "connect" VUndef (connect init)))) = [Io].
Proof.
  rewrite (connect_after_connected_is_noop ∅ VUndef (connect init)
             ltac:(cbn; eauto)).
  reflexivity.
Defined.

(** X13. A 'disconnect' event clears the connected flag and keeps the socket.
    When the reason is 'io server disconnect' the manager calls
    [socket.connect()] once; for any other reason it puts nothing on the
    wire.  Callers' functions subscribed to 'disconnect' are called
    either way. *)
Theorem server_disconnect_reconnects ls (reason : string) (s : Service)
    (rs : list nat) :
  socketRegistry "disconnect" s = Internal OnDisconnect :: map Fn rs ->
  wire (fst (fire ls "disconnect" (VStr reason) s)) =
    wire s ++ (if decide (reason = "io server disconnect")
               then [SockConnect] else [])
  /\ socketConnected (fst (fire ls "disconnect" (VStr reason) s)) = false
  /\ held (fst (fire ls "disconnect" (VStr reason) s)) = 1
  /\ snd (fire ls "disconnect" (VStr reason) s) = rs.
Proof.
  unfold socketRegistry. destruct (socket s) as [sock|] eqn:Hs; [|discriminate].
  intros Hreg.
  assert (E : fire ls "disconnect" (VStr reason) s =
              (if decide (reason = "io server disconnect")
               then logWire SockConnect (setConnected false s)
               else setConnected false s, rs)).
  { unfold fire. rewrite Hs, Hreg.
    destruct (decide ("disconnect" = "connect")) as [N|_]; [discriminate N|].
    destruct (decide ("disconnect" = "disconnect")) as [_|N]; [|congruence].
    apply dispatch_fns_after. cbn [runInternal].
    destruct (decide (reason = "io server disconnect")); [|reflexivity].
    unfold setConnected. now rewrite Hs. }
  rewrite E. cbn [fst snd].
  destruct (decide (reason = "io server disconnect"));
    unfold socketConnected, held, setConnected; rewrite Hs; cbn;
    rewrite ?app_nil_r; repeat split; reflexivity.
Qed.

Lemma server_disconnect_reconnects_witness :
  wire (fst (fire ∅ "disconnect" (VStr "io server disconnect") (connect init)))
    = [Io; SockConnect]
  /\ wire (fst (fire ∅ "disconnect" (VStr "transport close") (connect init)))
    = [Io].
Proof.
  split.
  - rewrite (proj1 (server_disconnect_reconnects ∅ "io server disconnect"
                      (connect init) [] eq_refl)).
    reflexivity.
  - rewrite (proj1 (server_disconnect_reconnects ∅ "transport close"
                      (connect init) [] eq_refl)).
    reflexivity.
Defined.

(** X14. The events 'reconnect', 'reconnect_attempt', 'reconnect_failed'
    and 'error' change nothing in the service and put nothing on the wire;
    callers' own functions subscribed to them are called.  So does
    'connect_error' when its argument is neither [undefined] nor [null].
    With an [undefined] or [null] argument the manager's 'connect_error'
    listener throws on reading [error.message]: the service is still
    unchanged, and the dispatch ends before any caller's function is
    called. *)
Theorem logged_only_events_change_nothing ls (e : string) arg (s : Service)
    (rs : list nat) :
  In e loggedOnlyEvents ->
  socketRegistry e s = internals e ++ map Fn rs ->
  fire ls e arg s =
    (s, if decide (e = "connect_error")
        then match prop arg "message" with Some _ => rs | None => [] end
        else rs).
Proof.
  intros He. unfold loggedOnlyEvents in He. simpl in He.
  unfold socketRegistry. destruct (socket s) as [sock|] eqn:Hs.
  - destruct He as [<-|He].
    { intros Hreg. unfold fire. rewrite Hs, Hreg.
      change (internals "connect_error") with [Internal OnConnectError].
      repeat (destruct (decide _) as [N|_]; [discriminate N|]).
      destruct (decide ("connect_error" = "connect_error")) as [_|N];
        [|congruence].
      cbn [app dispatch runInternal].
      destruct (prop arg "message"); cbn [mbind option_bind];
        [apply dispatch_fns | reflexivity]. }
    repeat (destruct He as [<-|He];
            [intros Hreg; unfold fire; rewrite Hs, Hreg;
             change (internals _) with [Internal OnReconnect]
             || change (internals _) with [Internal OnReconnectAttempt]
             || change (internals _) with [Internal OnReconnectFailed]
             || change (internals _) with [Internal OnError];
             repeat (destruct (decide _) as [N|_]; [discriminate N|]);
             now apply dispatch_fns_after|]).
    destruct He.
  - repeat (destruct He as [<-|He]; [intros Hreg; discriminate Hreg|]).
    destruct He.
Qed.

Lemma logged_only_events_change_nothing_witness :
  fire ∅ "connect_error" (VObj [("message", VStr "xhr poll error")])
       (on "connect_error" (Fn 5) (connect init))
  = (on "connect_error" (Fn 5) (connect init), [5])
  /\ fire ∅ "connect_error" VUndef (on "connect_error" (Fn 5) (connect init))
  = (on "connect_error" (Fn 5) (connect init), [])
  /\ fire ∅ "reconnect" (VNum 2) (on "reconnect" (Fn 6) (connect init))
  = (on "reconnect" (Fn 6) (connect init), [6]).
Proof.
  split; [|split].
  - apply (logged_only_events_change_nothing ∅ "connect_error"
             (VObj [("message", VStr "xhr poll error")]) _ [5]).
    + simpl. tauto.
    + reflexivity.
  - apply (logged_only_events_change_nothing ∅ "connect_error" VUndef _ [5]).
    + simpl. tauto.
    + reflexivity.
  - apply (logged_only_events_change_nothing ∅ "reconnect" (VNum 2) _ [6]).
    + simpl. tauto.
    + reflexivity.
Defined.

(** X15. [removeAllListeners(event)] empties the event in the socket and in
    the Map and leaves other events alone.  For 'connect' that includes
    the manager's own listener: afterwards a 'connect' event no longer
    re-joins the room. *)
Theorem removeAllListeners_clears (s : Service) (e : string) :
  is_Some (socket s) ->
  registry e (removeAllListeners e s) = []
  /\ socketRegistry e (removeAllListeners e s) = []
  /\ (forall e', e' <> e ->
        registry e' (removeAllListeners e s) = registry e' s /\
        socketRegistry e' (removeAllListeners e s) = socketRegistry e' s)
  /\ (forall ls arg,
        wire (fst (fire ls "connect" arg (removeAllListeners "connect" s))) =
          wire s).
Proof.
  intros [sock Hs].
  assert (E : removeAllListeners e s =
              {| socket := Some (emitterRemoveAll e sock);
                 listeners := delete e (listeners s); wire := wire s |})
    by (unfold removeAllListeners; now rewrite Hs).
  unfold registry, socketRegistry. rewrite E, Hs.
  cbn [socket listeners handlers emitterRemoveAll].
  rewrite !lookup_delete_eq. split; [reflexivity|].
  split; [reflexivity|]. split.
  - intros e' Hne. now rewrite !lookup_delete_ne by congruence.
  - intros ls arg. unfold fire, removeAllListeners. rewrite Hs.
    cbn [socket listeners handlers emitterRemoveAll].
    rewrite lookup_delete_eq.
    destruct (decide ("connect" = "connect")) as [_|N]; [|congruence].
    cbn [default from_option dispatch fst]. now rewrite wire_setConnected.
Qed.

Lemma removeAllListeners_clears_witness :
  joins (wire (fst (fire (<["user" := JsonText (VObj [("_id", VStr "u1")])]> ∅)
                        "connect" VUndef
                        (removeAllListeners "connect" (connect init))))) = [].
Proof.
  rewrite (proj2 (proj2 (proj2 (removeAllListeners_clears (connect init)
                                   "connect" ltac:(cbn; eauto))))).
  reflexivity.
Defined.

End WireFacts.

(** ** The session binding across renders *)

Section SessionFlowFacts.
Import WebSocket ServiceOps AuthContext.

Lemma svc_after_logout (a : Auth) :
  svc (rerender (logout a)) = disconnect (svc a).
Proof.
  pose proof (socket_disconnect (svc a)) as Hnone.
  unfold rerender, logout.
  cbn [user token storage svc queuedUser queuedToken default from_option id].
  destruct (negb (sameUser (user a) VNull) && _); [|reflexivity].
  rewrite userCleanup_without_socket by assumption.
  unfold userEffect. cbn [truthy]. now apply disconnect_without_socket.
Qed.

(** X16. After [logout()] and the re-render that follows, the provider holds no
    user and no token, neither item is left in local storage, no update is
    queued and the service has no socket; logging out again puts nothing
    more on the wire. *)
Theorem logout_clears_session (a : Auth) :
  user (rerender (logout a)) = VNull
  /\ token (rerender (logout a)) = None
  /\ storage (rerender (logout a)) !! "token" = None
  /\ storage (rerender (logout a)) !! "user" = None
  /\ queuedUser (rerender (logout a)) = None
  /\ queuedToken (rerender (logout a)) = None
  /\ socket (svc (rerender (logout a))) = None
  /\ wire (svc (rerender (logout (rerender (logout a))))) =
       wire (svc (rerender (logout a))).
Proof.
  assert (Hu : storage (logout a) !! "user" = None)
    by (cbn; unfold removeItem; apply lookup_delete_eq).
  assert (Ht : storage (logout a) !! "token" = None).
  { cbn. unfold removeItem. rewrite lookup_delete_ne by discriminate.
    apply lookup_delete_eq. }
  split; [reflexivity|]. split; [reflexivity|].
  split; [exact Ht|]. split; [exact Hu|]. split.
  - unfold rerender. cbn [queuedUser]. unfold tokenEffect. rewrite Hu.
    now destruct (negb _).
  - split; [reflexivity|]. split.
    + rewrite svc_after_logout. apply socket_disconnect.
    + rewrite !svc_after_logout.
      rewrite (disconnect_without_socket (disconnect (svc a)));
        [reflexivity | apply socket_disconnect].
Qed.

(** X17. Logging in on a service without a socket opens two sockets.  The
    re-render after [login] runs the [[token]] effect, which sets the user
    again from local storage, and the [[user]] effect, which connects and
    joins; the re-render caused by that second [setUser] cleans up (leave)
    and runs the effect again, and as the first socket has not connected
    yet [connect()] opens another one.  The first socket is never
    disconnected. *)
Theorem login_opens_two_sockets (a : Auth) (fs : list (string * jsval))
    (tok : string) :
  user a = VNull ->
  token a <> Some tok ->
  socket (svc a) = None ->
  wire (svc (rerender (rerender (loggedIn (VObj fs) tok a)))) =
    wire (svc a) ++
    [Io; Emit "join" (assoc "_id" fs); Emit "leave" (assoc "_id" fs);
     Io; Emit "join" (assoc "_id" fs)].
Proof.
  intros Hu Ht Hs.
  assert (Hstored : tokenEffect (storage (loggedIn (VObj fs) tok a)) =
                    Some (VObj fs)).
  { unfold tokenEffect, loggedIn. cbn [storage]. unfold setItem.
    now rewrite lookup_insert_eq. }
  assert (E1 : rerender (loggedIn (VObj fs) tok a) =
               {| user := VObj fs; token := Some tok;
                  storage := storage (loggedIn (VObj fs) tok a);
                  svc := {| socket := Some newSocket;
                            listeners := listeners (svc a);
                            wire := (wire (svc a) ++ [Io]) ++
                                    [Emit "join" (assoc "_id" fs)] |};
                  queuedUser := Some (VObj fs); queuedToken := None |}).
  { unfold rerender. rewrite Hstored.
    cbn [user token svc queuedUser queuedToken loggedIn default from_option id].
    rewrite Hu. cbn [sameUser negb andb].
    rewrite bool_decide_eq_true_2 by eauto.
    rewrite bool_decide_eq_false_2 by exact Ht.
    cbn [negb andb userCleanup truthy]. f_equal.
    unfold userEffect. cbn [truthy prop default from_option id].
    unfold connect. rewrite Hs. unfold joinRoom. cbn [socket]. reflexivity. }
  rewrite E1. unfold rerender.
  cbn [user token svc queuedUser queuedToken default from_option id
       sameUser negb andb].
  rewrite !bool_decide_eq_true_2 by (reflexivity || eauto).
  cbn [negb andb userCleanup userEffect truthy prop default from_option id].
  unfold leaveRoom, connect, joinRoom, logWire. cbn [socket connected newSocket wire].
  rewrite <- !app_assoc. reflexivity.
Qed.

Lemma login_opens_two_sockets_witness :
  opens (wire (svc (rerender (rerender
     (loggedIn (userRecord "u1") "tok"
        {| user := VNull; token := None; storage := ∅; svc := init;
           queuedUser := None; queuedToken := None |}))))) = 2.
Proof.
  unfold userRecord.
  rewrite (login_opens_two_sockets
             {| user := VNull; token := None; storage := ∅; svc := init;
                queuedUser := None; queuedToken := None |}
             [("_id", VStr "u1"); ("email", VStr "a@b.c")] "tok"
             eq_refl ltac:(discriminate) eq_refl).
  reflexivity.
Defined.

(** X18. When the user record is replaced while the socket is connected
    ([updateUser], a user switch), the old room is left and the new one
    joined on the same socket, in that order; no socket is opened or
    disconnected. *)
Theorem user_change_leaves_then_joins (a : Auth)
    (fs fs' : list (string * jsval)) :
  user a = VObj fs ->
  socketConnected (svc a) = true ->
  wire (svc (rerender (updatedUser (VObj fs') a))) =
    wire (svc a) ++
    [Emit "leave" (assoc "_id" fs); Emit "join" (assoc "_id" fs')].
Proof.
  intros Hu Hc. unfold socketConnected in Hc.
  destruct (socket (svc a)) as [sock|] eqn:Hs; [|discriminate].
  unfold rerender, updatedUser.
  cbn [user token svc queuedUser queuedToken default from_option id].
  rewrite Hu. cbn [sameUser negb andb default from_option id].
  rewrite bool_decide_eq_true_2 by eauto.
  cbn [negb andb]. unfold userEffect, userCleanup.
  cbn [truthy prop default from_option id].
  assert (El : forall x, leaveRoom x (svc a) = logWire (Emit "leave" x) (svc a))
    by (intros x; unfold leaveRoom; now rewrite Hs).
  rewrite El.
  assert (Ec : forall w, connect (logWire w (svc a)) = logWire w (svc a)).
  { intros w. unfold connect. cbn [logWire socket]. now rewrite Hs, Hc. }
  rewrite Ec. unfold joinRoom. cbn [logWire socket]. rewrite Hs.
  cbn [wire logWire]. now rewrite <- app_assoc.
Qed.

Lemma user_change_leaves_then_joins_witness :
  wire (svc (rerender (updatedUser (userRecord "u2")
                         (session (userRecord "u1") "tok")))) =
    wire (svc (session (userRecord "u1") "tok")) ++
    [Emit "leave" (VStr "u1"); Emit "join" (VStr "u2")].
Proof.
  apply (user_change_leaves_then_joins (session (userRecord "u1") "tok")
           [("_id", VStr "u1"); ("email", VStr "a@b.c")]
           [("_id", VStr "u2"); ("email", VStr "a@b.c")]);
    reflexivity.
Defined.

End SessionFlowFacts.

(** ** The response interceptor: bounds, credentials, messages *)

Section ApiEdgeFacts.
Import Api.

(** One answered request: it settles unless it is a first timeout. *)
Lemma request_head (config : Config) (a : attempt) (rest : list attempt)
    (env : Env) :
  (exists r env', request config (a :: rest) env = (Some r, env') /\
                  sent env' = S (sent env))
  \/ (exists cfg' env', request config (a :: rest) env = request cfg' rest env' /\
                        sent env' = S (sent env) /\
                        __retryCount cfg' = Some 1%Z).
Proof.
  cbn [request]. destruct a as [d|e]; [left; eauto|].
  destruct (isTimeoutError e).
  - destruct (match __retryCount config with
              | Some n => (n =? 0)%Z | None => true end);
      [right | left]; eauto 10.
  - destruct (isNetworkErr e); [left; eauto|].
    destruct (response e) as [[status data]|]; [|left; eauto].
    destruct (status =? 401)%Z; left; eauto.
Qed.

Lemma request_marked (config : Config) (a : attempt) (rest : list attempt)
    (env : Env) :
  __retryCount config = Some 1%Z ->
  exists r env', request config (a :: rest) env = (Some r, env') /\
                 sent env' = S (sent env).
Proof.
  intros Hm. cbn [request]. rewrite Hm. destruct a as [d|e]; [eauto|].
  destruct (isTimeoutError e); [cbn; eauto|].
  destruct (isNetworkErr e); [eauto|].
  destruct (response e) as [[status data]|]; [|eauto].
  destruct (status =? 401)%Z; eauto.
Qed.

(** X19. Whatever the transport answers, [api.request] puts at least one
    and at most two requests on the wire.  It settles as soon as two
    answers are available, and when it settles every request it sent was
    answered.  It stays pending only when the transport stops answering
    (no answer at all, or a single timeout whose retry gets no answer),
    and then one more request has been sent than was answered. *)
Theorem request_bounded (config : Config) (net : list attempt) (env : Env) :
  sent env + 1 <= sent (snd (request config net env)) <= sent env + 2
  /\ sent (snd (request config net env)) <= sent env + length net + 1
  /\ (2 <= length net -> is_Some (fst (request config net env)))
  /\ (is_Some (fst (request config net env)) ->
        sent (snd (request config net env)) <= sent env + length net)
  /\ (fst (request config net env) = None ->
        length net <= 1 /\
        sent (snd (request config net env)) = sent env + length net + 1).
Proof.
  destruct net as [|a1 net].
  - cbn. split; [lia|]. split; [lia|]. split; [lia|].
    split; [intros [x Hx]; discriminate Hx | intros _; lia].
  - destruct (request_head config a1 net env)
      as [(r & env' & E & Hs)|(cfg' & env' & E & Hs & Hm)].
    + rewrite E. cbn [fst snd length].
      split; [lia|]. split; [lia|]. split; [eauto|]. split; [lia|].
      intros H. discriminate H.
    + rewrite E. destruct net as [|a2 net].
      * cbn [request fst snd length sent].
        split; [lia|]. split; [lia|]. split; [intros H; lia|].
        split; [intros [x Hx]; discriminate Hx | intros _; lia].
      * destruct (request_marked cfg' a2 net env' Hm) as (r & env'' & E2 & Hs2).
        rewrite E2. cbn [fst snd length].
        split; [lia|]. split; [lia|]. split; [eauto|]. split; [lia|].
        intros H. discriminate H.
Qed.

Lemma request_bounded_witness :
  is_Some (fst (request (freshConfig "/transactions")
                  [Fails timeoutError; Responds VNull; Responds VNull] env0))
  /\ sent (snd (request (freshConfig "/transactions")
                  [Fails timeoutError; Responds VNull; Responds VNull] env0))
     <= 3
  /\ sent (snd (request (freshConfig "/transactions")
                  [Fails timeoutError] env0)) = 2.
Proof.
  destruct (request_bounded (freshConfig "/transactions")
              [Fails timeoutError; Responds VNull; Responds VNull] env0)
    as (_ & _ & Hsettles & Hanswered & _).
  destruct (request_bounded (freshConfig "/transactions")
              [Fails timeoutError] env0) as (_ & _ & _ & _ & Hpending).
  assert (Hs : is_Some (fst (request (freshConfig "/transactions")
                  [Fails timeoutError; Responds VNull; Responds VNull] env0)))
    by (apply Hsettles; cbn; lia).
  split; [exact Hs|]. split.
  - apply (Hanswered Hs).
  - apply (Hpending eq_refl).
Defined.

(** X20. A failure that carries a 401 response, and is neither a timeout nor
    classified as a network error, removes the token and the user record
    from local storage and redirects to the login page.  When the same
    failure is classified as a network error (code 'ERR_NETWORK' or
    message 'Network Error') that check comes first: storage is left as
    it is and there is no redirect. *)
Theorem unauthorized_clears_credentials (config : Config) (e : AxiosError)
    (data : jsval) (rest : list attempt) (env : Env) :
  isTimeoutError e = false ->
  response e = Some (401%Z, data) ->
  (isNetworkErr e = false ->
     store (snd (request config (Fails e :: rest) env)) !! "token" = None /\
     store (snd (request config (Fails e :: rest) env)) !! "user" = None /\
     redirected (snd (request config (Fails e :: rest) env)) = true)
  /\ (isNetworkErr e = true ->
        store (snd (request config (Fails e :: rest) env)) = store env /\
        redirected (snd (request config (Fails e :: rest) env)) =
          redirected env).
Proof.
  intros Ht Hr. split; intros Hn; cbn [request]; rewrite Ht, Hn.
  - rewrite Hr. cbn. unfold removeItem. split; [|split; [|reflexivity]].
    + rewrite lookup_delete_ne by discriminate. apply lookup_delete_eq.
    + apply lookup_delete_eq.
  - cbn. split; reflexivity.
Qed.

Lemma unauthorized_clears_credentials_witness :
  store (snd (request (freshConfig "/auth/me")
                [Fails {| code := "ERR_BAD_REQUEST";
                          message := "Request failed with status code 401";
                          response := Some (401%Z, VObj []) |}]
                {| store := <["user" := JsonText (VObj [])]> ∅; sent := 0;
                   redirected := false |})) !! "user" = None.
Proof.
  apply (proj1 (unauthorized_clears_credentials (freshConfig "/auth/me")
           {| code := "ERR_BAD_REQUEST";
              message := "Request failed with status code 401";
              response := Some (401%Z, VObj []) |}
           (VObj []) []
           {| store := <["user" := JsonText (VObj [])]> ∅; sent := 0;
              redirected := false |}
           eq_refl eq_refl)).
  reflexivity.
Defined.

Lemma assoc_app_present (k : string) (fs gs : list (string * jsval)) :
  k ∈ map fst fs -> assoc k (fs ++ gs) = assoc k fs.
Proof.
  induction fs as [|[k' v] fs IH]; cbn; intros H.
  - now apply elem_of_nil in H.
  - destruct (String.eqb k' k) eqn:E; [reflexivity|].
    apply elem_of_cons in H as [->|H]; [|now apply IH].
    now rewrite String.eqb_refl in E.
Qed.

Lemma assoc_app_absent (k : string) (fs gs : list (string * jsval)) :
  k ∉ map fst fs -> assoc k (fs ++ gs) = assoc k gs /\ assoc k fs = VUndef.
Proof.
  induction fs as [|[k' v] fs IH]; cbn; intros H; [now split|].
  apply not_elem_of_cons in H as [Hne H].
  destruct (String.eqb k' k) eqn:E;
    [apply String.eqb_eq in E; congruence | now apply IH].
Qed.

(** X21. The [message] of the error object built for an HTTP failure.  When
    the response body has a [message] field the caller gets that value as
    it is, even an empty one: the body is spread over the computed
    message.  Only when the body has no such field does the caller get
    the error's own message, or 'An error occurred' when that is empty. *)
Theorem http_error_message (config : Config) (e : AxiosError) (status : Z)
    (fs : list (string * jsval)) (rest : list attempt) (env : Env) :
  isTimeoutError e = false ->
  isNetworkErr e = false ->
  response e = Some (status, VObj fs) ->
  exists err,
    fst (request config (Fails e :: rest) env) = Some (Rejected err)
    /\ ("message" ∈ map fst fs ->
          prop err "message" = Some (assoc "message" fs))
    /\ ("message" ∉ map fst fs ->
          prop err "message" =
            Some (VStr (if String.eqb (message e) "" then "An error occurred"
                        else message e))).
Proof.
  intros Ht Hn Hr. cbn [request]. rewrite Ht, Hn, Hr.
  eexists. split.
  - destruct (status =? 401)%Z; reflexivity.
  - cbn [prop spreadOver]. split; intros Hk.
    + now rewrite assoc_app_present.
    + destruct (assoc_app_absent "message" fs
                  [("message",
                    orElse (assoc "message" fs)
                      (orElse (VStr (message e)) (VStr "An error occurred")))]
                  Hk) as [E1 E2].
      rewrite E1. cbn [assoc]. rewrite String.eqb_refl, E2.
      unfold orElse. cbn [truthy].
      now destruct (String.eqb (message e) "").
Qed.

Lemma http_error_message_witness :
  exists err,
    fst (request (freshConfig "/auth/login")
           [Fails {| code := "ERR_BAD_REQUEST"; message := "Request failed";
                     response := Some (400%Z, VObj [("message", VStr "")]) |}]
           env0) = Some (Rejected err)
    /\ prop err "message" = Some (VStr "").
Proof.
  destruct (http_error_message (freshConfig "/auth/login")
              {| code := "ERR_BAD_REQUEST"; message := "Request failed";
                 response := Some (400%Z, VObj [("message", VStr "")]) |}
              400 [("message", VStr "")] [] env0 eq_refl eq_refl eq_refl)
    as (err & Hfst & Hpresent & _).
  exists err. split; [exact Hfst|].
  apply Hpresent. cbn. apply elem_of_cons. now left.
Defined.

End ApiEdgeFacts.

(** ** The mounted view over its lifetime *)

Section ViewLifeFacts.
Import WebSocket ServiceOps View ViewEvents.

Lemma dispatch_no_fn ls arg (cbs : list callback) (s : Service) :
  (forall r, Fn r ∉ cbs) -> snd (dispatch ls arg cbs s) = [].
Proof.
  revert s. induction cbs as [|[h|r] cbs IH]; intros s Hno; cbn [dispatch].
  - reflexivity.
  - destruct (runInternal ls h arg s); [|reflexivity].
    apply IH. intros r Hr. apply (Hno r). now apply elem_of_cons; right.
  - exfalso. apply (Hno r). apply elem_of_cons. now left.
Qed.

Lemma fire_no_fn ls name arg (s : Service) :
  (forall r, Fn r ∉ socketRegistry name s) -> snd (fire ls name arg s) = [].
Proof.
  unfold socketRegistry, fire. destruct (socket s); [|reflexivity].
  apply dispatch_no_fn.
Qed.

Lemma no_fn_connect (s : Service) :
  (forall e r, Fn r ∉ socketRegistry e s) ->
  forall e r, Fn r ∉ socketRegistry e (connect s).
Proof.
  intros H e r. unfold connect.
  destruct (match socket s with Some sock => connected sock | None => false end);
    [apply H|].
  change (Fn r ∉ internals e). apply fn_not_internal.
Qed.

(** Events that leave the effect alone keep every socket, held or
    replaced, without callers' functions, and issue no request. *)
Lemma unsubscribed_step (e : event) (w : World) :
  keepsEffect e = true ->
  (forall e' r, Fn r ∉ socketRegistry e' (View.svc w)) ->
  (forall k sock e' r, replaced w !! k = Some sock ->
                       Fn r ∉ default [] (handlers sock !! e')) ->
  (forall e' r, Fn r ∉ socketRegistry e' (View.svc (step e w)))
  /\ (forall k sock e' r, replaced (step e w) !! k = Some sock ->
                          Fn r ∉ default [] (handlers sock !! e'))
  /\ requests (step e w) = requests w
  /\ invoked (step e w) = invoked w.
Proof.
  intros Hk Hno Hold.
  destruct e as [id|id| |name arg|i r| | |k name arg]; try discriminate Hk;
    cbn [step].
  - pose proof (fire_no_fn (ls w) name arg (View.svc w) (Hno name)) as Hf.
    pose proof (fun e' => socketRegistry_fire (ls w) name arg e' (View.svc w))
      as Hreg.
    destruct (fire (ls w) name arg (View.svc w)) as [s rs].
    cbn [snd] in Hf. cbn [fst] in Hreg. subst rs. cbn [callAll].
    split; [|split; [exact Hold | now split]].
    intros e' r. cbn [View.svc setSvc]. rewrite Hreg. apply Hno.
  - destruct (inflight w !! i); (split; [exact Hno|split; [exact Hold|now split]]).
  - split; [|split; [|now split]].
    + cbn [View.svc setSvc setReplaced]. now apply no_fn_connect.
    + cbn [replaced setSvc setReplaced]. intros k sock e' r Hl.
      apply lookup_app_Some in Hl as [Hl|[_ Hl]]; [now apply (Hold k)|].
      unfold droppedByConnect in Hl. specialize (Hno e' r).
      unfold socketRegistry in Hno.
      destruct (socket (View.svc w)) as [sock0|];
        [|now rewrite lookup_nil in Hl].
      destruct (connected sock0); [now rewrite lookup_nil in Hl|].
      destruct (k - length (replaced w)) as [|n]; cbn in Hl;
        [injection Hl as <-; exact Hno
        | first [discriminate Hl | now rewrite lookup_nil in Hl]].
  - split; [|split; [exact Hold | now split]].
    intros e' r. cbn [View.svc setSvc].
    rewrite socketRegistry_disconnect. apply not_elem_of_nil.
  - destruct (replaced w !! k) as [sock|] eqn:Hk';
      [|split; [exact Hno|split; [exact Hold|now split]]].
    pose proof (dispatch_no_fn (ls w) arg (default [] (handlers sock !! name))
                  (View.svc w) (fun r => Hold k sock name r Hk')) as Hf.
    pose proof (fun e' => socketRegistry_dispatch (ls w) arg e'
                  (default [] (handlers sock !! name)) (View.svc w)) as Hreg.
    unfold fireDetached.
    destruct (dispatch (ls w) arg (default [] (handlers sock !! name))
                (View.svc w)) as [s rs].
    cbn [snd] in Hf. cbn [fst] in Hreg. subst rs. cbn [callAll].
    split; [|split; [|now split]].
    + intros e' r. cbn [View.svc setSvc setReplaced]. rewrite Hreg. apply Hno.
    + cbn [replaced setSvc setReplaced]. intros k0 sock0 e' r Hl.
      destruct (decide (k = k0)) as [<-|Hne].
      * rewrite list_lookup_insert_eq in Hl
          by (eapply lookup_lt_Some; eassumption).
        injection Hl as <-.
        assert (Hh : forall b, handlers (if decide (name = "connect")
                      then {| connected := true; handlers := handlers sock |}
                      else if decide (name = "disconnect")
                      then {| connected := b; handlers := handlers sock |}
                      else sock) = handlers sock)
          by (intros b; repeat destruct (decide _); reflexivity).
        rewrite Hh. now apply (Hold k).
      * rewrite list_lookup_insert_ne in Hl by assumption. now apply (Hold k0).
Qed.

Lemma unsubscribed_run (tr : list event) (w : World) :
  forallb keepsEffect tr = true ->
  (forall e' r, Fn r ∉ socketRegistry e' (View.svc w)) ->
  (forall k sock e' r, replaced w !! k = Some sock ->
                       Fn r ∉ default [] (handlers sock !! e')) ->
  requests (run tr w) = requests w /\ invoked (run tr w) = invoked w.
Proof.
  revert w. induction tr as [|e tr IH]; intros w Hk Hno Hold; [now split|].
  cbn [forallb] in Hk. apply andb_prop in Hk as [Hk1 Hk2].
  rewrite run_cons.
  destruct (unsubscribed_step e w Hk1 Hno Hold) as (Hno' & Hold' & Hr & Hi).
  destruct (IH (step e w) Hk2 Hno' Hold') as [Hr' Hi']. split; congruence.
Qed.

(** X22. A view that mounts while the service has no socket is never
    subscribed: whatever the service and the transport do afterwards
    (connecting included), no push reaches it, and the initial fetch
    remains the only request it ever makes until it is re-mounted or its
    route changes. *)
Theorem mounted_before_socket_never_refreshes (id : string)
    (tr : list event) :
  forallb keepsEffect tr = true ->
  requests (run tr (step (Mount id) world0)) = [id]
  /\ invoked (run tr (step (Mount id) world0)) = [].
Proof.
  intros Hk. apply (unsubscribed_run tr (step (Mount id) world0) Hk).
  - intros e' r. cbn. apply not_elem_of_nil.
  - intros k sock e' r Hl. cbn in Hl. now rewrite lookup_nil in Hl.
Qed.

Lemma mounted_before_socket_never_refreshes_witness :
  requests (run [SvcConnect; Transport "connect" VUndef; Push "t1"; Push "t1"]
              (step (Mount "t1") world0)) = ["t1"].
Proof.
  apply (mounted_before_socket_never_refreshes "t1"
           [SvcConnect; Transport "connect" VUndef; Push "t1"; Push "t1"]).
  reflexivity.
Defined.

(** X23. After the service disconnects and connects again, the socket it
    now holds does not have the view's handler: a 'transaction_update'
    delivered on that socket changes nothing, even for a view that stayed
    mounted.  [disconnect()] does not reach a socket that an earlier
    [connect()] replaced: such a socket is still there afterwards with its
    listeners, and a push it receives for the id its handler was created
    for still runs the handler and issues a request. *)
Theorem reconnect_unsubscribes_view (w : World) (tid : string) :
  step (Push tid) (run [SvcDisconnect; SvcConnect] w) =
    run [SvcDisconnect; SvcConnect] w
  /\ replaced (run [SvcDisconnect; SvcConnect] w) = replaced w
  /\ (forall k sock r c,
        replaced w !! k = Some sock ->
        default [] (handlers sock !! "transaction_update") = [Fn r] ->
        closures w !! r = Some c ->
        requests (step (OldTransport k "transaction_update"
                          (VObj [("transactionId", VStr (cl_id c))]))
                    (run [SvcDisconnect; SvcConnect] w)) =
          requests w ++ [cl_id c]).
Proof.
  assert (Hd : droppedByConnect (disconnect (View.svc w)) = [])
    by (unfold droppedByConnect; now rewrite socket_disconnect).
  assert (E : run [SvcDisconnect; SvcConnect] w =
              setReplaced (replaced w)
                (setSvc (connect (disconnect (View.svc w))) w)).
  { cbn [run foldl step]. cbn [View.svc replaced setSvc setReplaced].
    rewrite Hd, app_nil_r. reflexivity. }
  split; [|split].
  - apply step_unsubscribed. rewrite E. cbn [View.svc setSvc setReplaced].
    unfold socketRegistry, connect. rewrite socket_disconnect. reflexivity.
  - now rewrite E.
  - intros k sock r c Hk Hreg Hc. rewrite E.
    cbn [step replaced setSvc setReplaced]. rewrite Hk.
    unfold fireDetached. rewrite Hreg.
    destruct (decide ("transaction_update" = "connect")) as [N|_];
      [discriminate N|].
    destruct (decide ("transaction_update" = "disconnect")) as [N|_];
      [discriminate N|].
    cbn [dispatch callAll]. unfold handleTransactionUpdate.
    cbn [closures setSvc setReplaced noteInvoked]. rewrite Hc.
    cbn [prop assoc String.eqb Ascii.eqb Bool.eqb].
    destruct (decide (cl_id c = cl_id c)); [reflexivity | congruence].
Qed.

Lemma reconnect_unsubscribes_view_witness :
  mounted (run [SvcConnect; Mount "t1"; SvcConnect; Unmount] world0) = None
  /\ requests (step (OldTransport 0 "transaction_update"
                       (VObj [("transactionId", VStr "t1")]))
                 (run [SvcDisconnect; SvcConnect]
                    (run [SvcConnect; Mount "t1"; SvcConnect; Unmount]
                       world0)))
     = ["t1"; "t1"].
Proof.
  split; [reflexivity|].
  apply (proj2 (proj2 (reconnect_unsubscribes_view
                  (run [SvcConnect; Mount "t1"; SvcConnect; Unmount] world0)
                  "t1"))
           0 (emitterOn "transaction_update" (Fn 0) newSocket) 0
           {| cl_inst := 0; cl_id := "t1" |});
    reflexivity.
Defined.

Lemma push_other (w : World) (r : nat) (c : Closure) (data : jsval) :
  socketRegistry "transaction_update" (View.svc w) = [Fn r] ->
  closures w !! r = Some c ->
  match prop data "transactionId" with
  | Some (VStr tid) => tid <> cl_id c
  | _ => True
  end ->
  step (Transport "transaction_update" data) w = noteInvoked r w.
Proof.
  intros Hreg Hc Hd. unfold step, fire. unfold socketRegistry in Hreg.
  destruct (socket (View.svc w)) as [sock|] eqn:Hs; [|discriminate].
  rewrite Hreg. cbn [dispatch].
  destruct (decide ("transaction_update" = "connect")) as [E|_];
    [discriminate E|].
  destruct (decide ("transaction_update" = "disconnect")) as [E|_];
    [discriminate E|].
  rewrite setSvc_same. cbn [callAll]. unfold handleTransactionUpdate.
  rewrite Hc.
  destruct (prop data "transactionId") as [[| | | |tid|]|]; try reflexivity.
  destruct (decide (tid = cl_id c)); [contradiction | reflexivity].
Qed.

(** X24. A push that does not name the displayed transaction runs the handler
    and nothing else: no request, no setter call.  The same holds for a
    payload without a [transactionId] and for a missing payload (reading
    the field throws inside the handler). *)
Theorem push_for_other_transaction_ignored (w : World) (r : nat)
    (c : Closure) :
  socketRegistry "transaction_update" (View.svc w) = [Fn r] ->
  closures w !! r = Some c ->
  (forall tid, tid <> cl_id c -> step (Push tid) w = noteInvoked r w)
  /\ step (Transport "transaction_update" (VObj [])) w = noteInvoked r w
  /\ step (Transport "transaction_update" VUndef) w = noteInvoked r w.
Proof.
  intros Hreg Hc. split; [|split].
  - intros tid Hne. now apply (push_other w r c).
  - now apply (push_other w r c).
  - now apply (push_other w r c).
Qed.

Lemma push_for_other_transaction_ignored_witness :
  requests (step (Push "t2") (viewing "t1")) = ["t1"]
  /\ invoked (step (Push "t2") (viewing "t1")) = [0].
Proof.
  destruct (push_for_other_transaction_ignored (viewing "t1") 0
              {| cl_inst := 0; cl_id := "t1" |} eq_refl eq_refl) as [H _].
  rewrite (H "t2") by discriminate. split; reflexivity.
Defined.

End ViewLifeFacts.

(** ** Route changes and the accounting of requests *)

Section ViewRouteFacts.
Import WebSocket ServiceOps View.

Lemma navigate_step (w : World) (m : Instance) (id' : string) :
  mounted w = Some m -> i_id m <> id' ->
  step (Navigate id') w = effect (i_inst m) id' (cleanup m w).
Proof.
  intros Hm Hne. cbn [step]. rewrite Hm.
  destruct (decide (i_id m = id')); [contradiction | reflexivity].
Qed.

(** X25. When the route parameter changes on a subscribed view, the effect is
    cleaned up and run again: one request for the new id is issued, the
    old handler is replaced by a new one, a push for the old id is then
    ignored and a push for the new id fetches. *)
Theorem navigate_resubscribes (w : World) (m : Instance) (id' : string) :
  mounted w = Some m ->
  i_id m <> id' ->
  socketRegistry "transaction_update" (View.svc w) = [Fn (i_cb m)] ->
  requests (step (Navigate id') w) = requests w ++ [id']
  /\ mounted (step (Navigate id') w) =
       Some {| i_inst := i_inst m; i_id := id'; i_cb := nextRef w |}
  /\ socketRegistry "transaction_update" (View.svc (step (Navigate id') w)) =
       [Fn (nextRef w)]
  /\ requests (step (Push (i_id m)) (step (Navigate id') w)) =
       requests w ++ [id']
  /\ requests (step (Push id') (step (Navigate id') w)) =
       requests w ++ [id'; id'].
Proof.
  intros Hm Hne Hreg. rewrite (navigate_step w m id' Hm Hne).
  set (c' := {| cl_inst := i_inst m; cl_id := id' |}).
  assert (Hreg' : socketRegistry "transaction_update"
                    (View.svc (effect (i_inst m) id' (cleanup m w))) =
                  [Fn (nextRef w)]).
  { unfold effect, cleanup.
    cbn [View.svc fetchTransaction setMounted setSvc nextRef].
    assert (Hs : is_Some (socket (off "transaction_update" (Fn (i_cb m))
                                    (View.svc w)))).
    { unfold socketRegistry in Hreg.
      destruct (socket (View.svc w)) as [sock|] eqn:Hs; [|discriminate].
      unfold off. rewrite Hs. cbn. eauto. }
    rewrite socketRegistry_on by exact Hs.
    rewrite socketRegistry_off, Hreg, spliceOut_singleton. reflexivity. }
  assert (Hcl : closures (effect (i_inst m) id' (cleanup m w)) !! nextRef w =
                Some c').
  { unfold effect. cbn [closures nextRef fetchTransaction cleanup setMounted
                        setSvc].
    apply lookup_insert_eq. }
  split; [reflexivity|]. split; [reflexivity|]. split; [exact Hreg'|]. split.
  - unfold Push.
    rewrite (push_other _ (nextRef w) c'
               (VObj [("transactionId", VStr (i_id m))]));
      [reflexivity | exact Hreg' | exact Hcl | cbn; exact Hne].
  - change id' with (cl_id c') at 1.
    rewrite (push_fetches _ (nextRef w) c' Hreg' Hcl).
    cbn [requests fetchTransaction noteInvoked effect cleanup setMounted setSvc
         cl_id c'].
    now rewrite <- app_assoc.
Qed.

Lemma navigate_resubscribes_witness :
  requests (step (Push "t1") (step (Navigate "t2") (viewing "t1")))
    = ["t1"; "t2"]
  /\ requests (step (Push "t2") (step (Navigate "t2") (viewing "t1")))
    = ["t1"; "t2"; "t2"].
Proof.
  destruct (navigate_resubscribes (viewing "t1")
              {| i_inst := 0; i_id := "t1"; i_cb := 0 |} "t2"
              eq_refl ltac:(discriminate) eq_refl)
    as (_ & _ & _ & Hold & Hnew).
  split; [exact Hold | exact Hnew].
Defined.

(** X26. A request issued for the previous route parameter that settles after
    the route changed still sets the transaction of the same component
    instance, which by then shows another id: the continuation does not
    compare the fetched record with the current route. *)
Theorem stale_fetch_lands_after_navigation (w : World) (m : Instance)
    (i : nat) (c : Closure) (id' : string) (t : Steps.Transaction) :
  mounted w = Some m ->
  i_id m <> id' ->
  inflight w !! i = Some c ->
  cl_inst c = i_inst m ->
  calls (step (Settle i (Some t)) (step (Navigate id') w)) =
    calls w ++ [(i_inst m, SetTransaction t); (i_inst m, SetLoading false)]
  /\ mounted (step (Settle i (Some t)) (step (Navigate id') w)) =
       Some {| i_inst := i_inst m; i_id := id'; i_cb := nextRef w |}.
Proof.
  intros Hm Hne Hi Hc. rewrite (navigate_step w m id' Hm Hne).
  assert (Hi' : inflight (effect (i_inst m) id' (cleanup m w)) !! i = Some c).
  { unfold effect, cleanup.
    cbn [inflight fetchTransaction setMounted setSvc].
    rewrite lookup_app_l by (eapply lookup_lt_Some; eassumption). exact Hi. }
  cbn [step]. rewrite Hi'. rewrite <- Hc. split; reflexivity.
Qed.

Lemma stale_fetch_lands_after_navigation_witness :
  calls (step (Settle 0 (Some Steps.tx0))
           (step (Navigate "t2") (viewing "t1")))
    = [(0, SetTransaction Steps.tx0); (0, SetLoading false)]
  /\ mounted (step (Settle 0 (Some Steps.tx0))
                (step (Navigate "t2") (viewing "t1")))
    = Some {| i_inst := 0; i_id := "t2"; i_cb := 1 |}.
Proof.
  apply (stale_fetch_lands_after_navigation (viewing "t1")
           {| i_inst := 0; i_id := "t1"; i_cb := 0 |} 0
           {| cl_inst := 0; cl_id := "t1" |} "t2" Steps.tx0);
    [reflexivity | discriminate | reflexivity | reflexivity].
Defined.

Lemma balance_handleTransactionUpdate r data (w w' : World) :
  handleTransactionUpdate r data w = Some w' ->
  length (calls w') = length (calls w) /\
  length (inflight w') + length (requests w) =
    length (inflight w) + length (requests w').
Proof.
  unfold handleTransactionUpdate. intros H.
  destruct (closures w !! r) as [c|]; [|injection H as <-; now split].
  destruct (prop data "transactionId") as [[| | | |tid|]|];
    try discriminate; try (injection H as <-; now split).
  destruct (decide (tid = cl_id c)); injection H as <-; [|now split].
  cbn [calls inflight requests fetchTransaction noteInvoked].
  rewrite !length_app. cbn. split; lia.
Qed.

Lemma balance_callAll rs data (w : World) :
  length (calls (callAll rs data w)) = length (calls w) /\
  length (inflight (callAll rs data w)) + length (requests w) =
    length (inflight w) + length (requests (callAll rs data w)).
Proof.
  revert w. induction rs as [|r rs IH]; intros w; cbn [callAll]; [now split|].
  destruct (handleTransactionUpdate r data w) as [w'|] eqn:E; [|now split].
  apply balance_handleTransactionUpdate in E as [E1 E2].
  destruct (IH w') as [I1 I2]. split; lia.
Qed.

(** X27. In every state the view can reach, each request issued so far is
    either still pending or has been settled by exactly two calls (the
    record or the error toast, then [setLoading(false)]): calls made plus
    twice the pending requests equals twice the requests issued. *)
Theorem requests_pending_or_settled (tr : list event) :
  length (calls (run tr world0)) + 2 * length (inflight (run tr world0)) =
    2 * length (requests (run tr world0)).
Proof.
  assert (G : forall w,
             length (calls w) + 2 * length (inflight w) =
               2 * length (requests w) ->
             length (calls (run tr w)) + 2 * length (inflight (run tr w)) =
               2 * length (requests (run tr w))).
  { induction tr as [|e tr IH]; intros w Hb; [exact Hb|].
    rewrite run_cons. apply IH.
    destruct e as [id|id| |name arg|i r| | |k name arg]; cbn [step].
    - destruct (mounted w); [exact Hb|].
      cbn [calls inflight requests effect fetchTransaction].
      rewrite !length_app. cbn. lia.
    - destruct (mounted w) as [m|]; [|exact Hb].
      destruct (decide (i_id m = id)); [exact Hb|].
      cbn [calls inflight requests effect fetchTransaction cleanup setMounted
           setSvc].
      rewrite !length_app. cbn. lia.
    - destruct (mounted w); exact Hb.
    - destruct (fire (ls w) name arg (View.svc w)) as [s rs].
      destruct (balance_callAll rs arg (setSvc s w)) as [B1 B2].
      cbn [calls inflight requests setSvc] in B1, B2. lia.
    - destruct (inflight w !! i) as [c|] eqn:Hi; [|exact Hb].
      cbn [calls inflight requests fetchSettled].
      rewrite !length_app, length_delete by eauto.
      apply lookup_lt_Some in Hi. destruct r; cbn; lia.
    - exact Hb.
    - exact Hb.
    - destruct (replaced w !! k) as [sock|]; [|exact Hb].
      unfold fireDetached.
      destruct (dispatch (ls w) arg (default [] (handlers sock !! name))
                  (View.svc w)) as [s rs].
      match goal with
      | |- context [callAll rs arg ?w1] =>
          destruct (balance_callAll rs arg w1) as [B1 B2]
      end.
      cbn [calls inflight requests setSvc setReplaced] in B1, B2. lia. }
  apply G. reflexivity.
Qed.

End ViewRouteFacts.
